(** * CoastSat workshop notebook: cross-shore time series and tidal correction

    Shallow embedding of the analysis cells of [WORKSHOP.ipynb]: the
    tidal-correction loop, the two [out_dict] tables handed to
    [pd.DataFrame], and the library calls they depend on.

    Numbers are IEEE-754 binary64 values, as in numpy's [float64]: the
    executable specification [SpecFloat] of the standard library supplies the
    arithmetic (round to nearest even, signed zeros, infinities, one NaN). *)

From Stdlib Require Import ZArith List String Bool Lia PeanoNat Sorted SpecFloat.
Import ListNotations.

(** ** binary64 arithmetic *)

Module F64.

Definition prec : Z := 53.
Definition emax : Z := 1024.

Definition float : Type := spec_float.

Definition nan : float := S754_nan.
Definition add : float -> float -> float := SFadd prec emax.
Definition sub : float -> float -> float := SFsub prec emax.
Definition mul : float -> float -> float := SFmul prec emax.
Definition div : float -> float -> float := SFdiv prec emax.
Definition sqrt : float -> float := SFsqrt prec emax.
Definition abs : float -> float := SFabs.
Definition eqb : float -> float -> bool := SFeqb.
Definition ltb : float -> float -> bool := SFltb.
Definition leb : float -> float -> bool := SFleb.

(** Conversion of a Python [int] to [float64]. *)
Definition of_Z (z : Z) : float := binary_normalize prec emax z 0 false.
Definition of_nat (n : nat) : float := of_Z (Z.of_nat n).

Definition is_nan (x : float) : bool :=
  match x with S754_nan => true | _ => false end.

(** [np.isfinite]. *)
Definition is_finite (x : float) : bool :=
  match x with
  | S754_zero _ | S754_finite _ _ _ => true
  | S754_infinity _ | S754_nan => false
  end.

Definition is_zero (x : float) : bool :=
  match x with S754_zero _ => true | _ => false end.

End F64.

Abbreviation float := F64.float.

(** UTC timestamps, in microseconds (the resolution of [datetime]). *)
Definition datetime : Type := Z.

(** ** numpy arrays and the object store

    A one-dimensional [float64] array is a list of binary64 values.  Arrays
    are Python objects: variables and dictionary entries hold references to
    them, so the store maps addresses to arrays and every array operator
    allocates its result. *)

Definition ndarray : Type := list float.

Definition loc : Type := nat.
Definition heap : Type := list ndarray.

(** State-and-exception monad of the notebook cells: [None] is a raised
    Python exception. *)
Definition M (A : Type) : Type := heap -> option (A * heap).

Definition ret {A} (a : A) : M A := fun h => Some (a, h).
Definition raise {A} : M A := fun _ => None.
Definition bind {A B} (c : M A) (k : A -> M B) : M B :=
  fun h => match c h with
           | Some (a, h') => k a h'
           | None => None
           end.

Declare Scope py_scope.
Delimit Scope py_scope with py.
Notation "x <- c ;; k" := (bind c (fun x => k))
  (at level 61, c at next level, right associativity) : py_scope.
Local Open Scope py_scope.

Definition alloc (a : ndarray) : M loc := fun h => Some (List.length h, h ++ [a]).
Definition deref (l : loc) : M ndarray :=
  fun h => match nth_error h l with
           | Some a => Some (a, h)
           | None => None
           end.

(** [for x in xs: acc = body(x, acc)]. *)
Fixpoint for_each {A S} (xs : list A) (body : A -> S -> M S) (acc : S) : M S :=
  match xs with
  | [] => ret acc
  | x :: xs' => acc' <- body x acc ;; for_each xs' body acc'
  end.

Fixpoint map2 {A B C} (f : A -> B -> C) (xs : list A) (ys : list B) : list C :=
  match xs, ys with
  | x :: xs', y :: ys' => f x y :: map2 f xs' ys'
  | _, _ => []
  end.

Module np.

(** [a - s] and [a / s] for an array [a] and a Python scalar [s]. *)
Definition sub_scalar (a : loc) (s : float) : M loc :=
  x <- deref a ;; alloc (map (fun v => F64.sub v s) x).

Definition div_scalar (a : loc) (s : float) : M loc :=
  x <- deref a ;; alloc (map (fun v => F64.div v s) x).

(** Broadcasting of two one-dimensional shapes: equal lengths combine
    elementwise, a length-one operand is stretched, anything else raises
    [ValueError]. *)
Definition broadcast_add (x y : ndarray) : option ndarray :=
  if List.length x =? List.length y then Some (map2 F64.add x y)
  else match x, y with
       | [u], _ => Some (map (fun v => F64.add u v) y)
       | _, [v] => Some (map (fun u => F64.add u v) x)
       | _, _ => None
       end.

(** [a + b] for two arrays. *)
Definition add (a b : loc) : M loc :=
  x <- deref a ;;
  y <- deref b ;;
  match broadcast_add x y with
  | Some z => alloc z
  | None => raise
  end.

End np.

(** ** Python dictionaries with string keys

    Insertion-ordered, as iteration over [.keys()] and the column order of the
    exported tables follow insertion order. *)

Definition dict (V : Type) : Type := list (string * V).

Fixpoint dict_get {V} (k : string) (d : dict V) : option V :=
  match d with
  | [] => None
  | (k', v) :: d' => if String.eqb k k' then Some v else dict_get k d'
  end.

(** [d[k] = v]: an existing key keeps its position. *)
Fixpoint dict_setitem {V} (d : dict V) (k : string) (v : V) : dict V :=
  match d with
  | [] => [(k, v)]
  | (k', v') :: d' =>
      if String.eqb k k' then (k', v) :: d' else (k', v') :: dict_setitem d' k v
  end.

Definition dict_keys {V} (d : dict V) : list string := map fst d.

(** [d[k]] raises [KeyError] on a missing key. *)
Definition dict_getitem {V} (d : dict V) (k : string) : M V :=
  match dict_get k d with
  | Some v => ret v
  | None => raise
  end.

(** A dictionary of array references, such as [cross_distance]. *)
Definition pydict : Type := dict loc.

(** The series stored under [k], read through the store. *)
Definition series_at (h : heap) (d : pydict) (k : string) : option ndarray :=
  match dict_get k d with
  | Some l => nth_error h l
  | None => None
  end.

(** Every series of the dictionary is allocated and has [n] entries: the
    alignment of a cross-distance mapping with a date axis of [n] dates. *)
Definition aligned (h : heap) (d : pydict) (n : nat) : Prop :=
  forall k l, dict_get k d = Some l ->
    exists a, nth_error h l = Some a /\ List.length a = n.

(** ** Tidal correction cell

<<
    reference_elevation = 0
    beach_slope = 1/60
    cross_distance_tidally_corrected = {}
    for key in cross_distance.keys():
        correction = (tides_sat-reference_elevation)/beach_slope
        cross_distance_tidally_corrected[key] = cross_distance[key] + correction
>>
*)

Definition reference_elevation : float := F64.of_Z 0.
Definition beach_slope : float := F64.div (F64.of_Z 1) (F64.of_Z 60).

Section TidalCorrection.

(** The two scalars are set by the user in the cell; the cell is modelled
    for any value of them. *)
Variable elevation slope : float.
Variable cross_distance : pydict.
Variable tides_sat : loc.

Definition correct_transect (key : string) (corrected : pydict) : M pydict :=
  shifted <- np.sub_scalar tides_sat elevation ;;
  correction <- np.div_scalar shifted slope ;;
  raw <- dict_getitem cross_distance key ;;
  total <- np.add raw correction ;;
  ret (dict_setitem corrected key total).

Definition cross_distance_tidally_corrected : M pydict :=
  for_each (dict_keys cross_distance) correct_transect [].

(** The contents of [correction] and of a corrected series, as the body
    computes them from the tide levels and a raw series. *)
Definition correction_of (tides : ndarray) : ndarray :=
  map (fun v => F64.div v slope) (map (fun v => F64.sub v elevation) tides).

Definition corrected_series (tides raw : ndarray) : ndarray :=
  map2 F64.add raw (correction_of tides).

End TidalCorrection.

(** ** Inputs of the analysis cells

    [output] is the dictionary of mapped shorelines: [output['dates']] and
    [output['shorelines']] are parallel lists, one entry per satellite image.
    A transect is a 2x2 array: the first row is the origin (landward end), the
    second the seaward end. *)

Definition point : Type := (float * float)%type.

Record Transect : Type := { origin : point; endpoint : point }.

Record output_t : Type := {
  output_dates : list datetime;
  output_shorelines : list (list point)
}.

(** ** Export cells: [out_dict] and [pd.DataFrame]

<<
    out_dict = dict([])
    out_dict['dates'] = output['dates']
    for key in transects.keys():
        out_dict[key] = cross_distance[key]
    df = pd.DataFrame(out_dict)
>>
    and, after the tidal correction,
<<
    out_dict = dict([])
    out_dict['dates'] = dates_sat
    for key in cross_distance_tidally_corrected.keys():
        out_dict[key] = cross_distance_tidally_corrected[key]
    df = pd.DataFrame(out_dict)
>>
*)

(** A value of [out_dict]: the list of dates, or a reference to a series. *)
Inductive pyvalue : Type :=
| DateList (ds : list datetime)
| ArrayRef (l : loc).

Module pd.

Inductive column : Type :=
| DateColumn (ds : list datetime)
| FloatColumn (a : ndarray).

Definition column_length (c : column) : nat :=
  match c with
  | DateColumn ds => List.length ds
  | FloatColumn a => List.length a
  end.

(** A data frame: the row labels (a [RangeIndex]) and the columns in the order
    of the dictionary they came from. *)
Record frame : Type := { index : list nat; columns : dict column }.

Definition load_column (v : pyvalue) : M column :=
  match v with
  | DateList ds => ret (DateColumn ds)
  | ArrayRef l => a <- deref l ;; ret (FloatColumn a)
  end.

Fixpoint load_columns (d : dict pyvalue) : M (dict column) :=
  match d with
  | [] => ret []
  | (k, v) :: d' =>
      c <- load_column v ;;
      cs <- load_columns d' ;;
      ret ((k, c) :: cs)
  end.

(** [pd.DataFrame(d)] for a dictionary of columns: raises [ValueError] unless
    all columns have the same length; keeps every row. *)
Definition DataFrame (d : dict pyvalue) : M frame :=
  cols <- load_columns d ;;
  match cols with
  | [] => ret {| index := []; columns := [] |}
  | (_, c) :: _ =>
      if forallb (fun kc => column_length (snd kc) =? column_length c) cols
      then ret {| index := seq 0 (column_length c); columns := cols |}
      else raise
  end.

(** The entry of a column at a row label. *)
Definition float_at (df : frame) (key : string) (row : nat) : option float :=
  match dict_get key (columns df) with
  | Some (FloatColumn a) => nth_error a row
  | _ => None
  end.

Definition date_at (df : frame) (key : string) (row : nat) : option datetime :=
  match dict_get key (columns df) with
  | Some (DateColumn ds) => nth_error ds row
  | _ => None
  end.

End pd.

(** The loop [for key in keys: out_dict[key] = series[key]]. *)
Definition fill_out_dict (keys : list string) (series : pydict)
    (out_dict : dict pyvalue) : M (dict pyvalue) :=
  for_each keys
    (fun key out => l <- dict_getitem series key ;;
                    ret (dict_setitem out key (ArrayRef l)))
    out_dict.

(** The table saved as [transect_time_series.csv]. *)
Definition transect_time_series (output : output_t) (transects : dict Transect)
    (cross_distance : pydict) : M pd.frame :=
  out_dict <- fill_out_dict (dict_keys transects) cross_distance
                (dict_setitem [] "dates" (DateList (output_dates output))) ;;
  pd.DataFrame out_dict.

(** The table saved as [transect_time_series_tidally_corrected.csv]. *)
Definition transect_time_series_tidally_corrected (dates_sat : list datetime)
    (corrected : pydict) : M pd.frame :=
  out_dict <- fill_out_dict (dict_keys corrected) corrected
                (dict_setitem [] "dates" (DateList dates_sat)) ;;
  pd.DataFrame out_dict.

(** What [pd.DataFrame] reads for a value of [out_dict], and when it can be
    read as a column of [n] rows. *)
Definition column_of (h : heap) (v : pyvalue) : option pd.column :=
  match v with
  | DateList ds => Some (pd.DateColumn ds)
  | ArrayRef l => option_map pd.FloatColumn (nth_error h l)
  end.

Definition loadable (h : heap) (n : nat) (v : pyvalue) : Prop :=
  match v with
  | DateList ds => List.length ds = n
  | ArrayRef l => exists a, nth_error h l = Some a /\ List.length a = n
  end.

(** ** Settings of the quality-controlled intersections

<<
    settings_transects = {
        'along_dist': 25, 'min_points': 3, 'max_std': 15, 'max_range': 50,
        'min_chainage': -100, 'multiple_inter': 'auto', 'prc_multiple': 0.1 }
>>
    The text of the notebook calls the last setting [auto_prc]; the cell
    passes it under the key ['prc_multiple']. *)

Inductive multiple_inter_t : Type := inter_auto | inter_nan | inter_max.

Record settings_t : Type := {
  along_dist : float;
  min_points : nat;
  max_std : float;
  max_range : float;
  min_chainage : float;
  multiple_inter : multiple_inter_t;
  prc_multiple : float
}.

(** The same settings with another value of ['multiple_inter']. *)
Definition with_multiple_inter (s : settings_t) (m : multiple_inter_t) : settings_t := {|
  along_dist := along_dist s;
  min_points := min_points s;
  max_std := max_std s;
  max_range := max_range s;
  min_chainage := min_chainage s;
  multiple_inter := m;
  prc_multiple := prc_multiple s
|}.

Definition settings_transects : settings_t := {|
  along_dist := F64.of_Z 25;
  min_points := 3;
  max_std := F64.of_Z 15;
  max_range := F64.of_Z 50;
  min_chainage := F64.of_Z (-100);
  multiple_inter := inter_auto;
  prc_multiple := F64.div (F64.of_Z 1) (F64.of_Z 10)
|}.

(** ** The tide lookup [SDS_tools.get_closest_datapoint]

    The notebook calls this function of the [coastsat] package; its body is
    not part of the notebook.  The definitions of this module follow section
    4.4 of the specification. *)

Module SDS_tools.

(** Modelled from the spec: "closest sample in absolute time, ties broken by
    the earlier sample".  [t] is a better match for the date [d] than [t']
    when it is strictly closer, or as close and earlier. *)
Definition closer (d t t' : datetime) : bool :=
  (Z.abs (t - d) <? Z.abs (t' - d))%Z
  || ((Z.abs (t - d) =? Z.abs (t' - d))%Z && (t <? t')%Z).

(** Modelled from the spec: the nearest-timestamp lookup, as a scan of the
    series that keeps the best match met so far. *)
Fixpoint closest_sample (d : datetime) (best : datetime * float)
    (samples : list (datetime * float)) : datetime * float :=
  match samples with
  | [] => best
  | s :: rest =>
      closest_sample d (if closer d (fst s) (fst best) then s else best) rest
  end.

(** Modelled from the spec: the body of [get_closest_datapoint] is not part of
    the notebook, which only calls it.  Section 4.4 of the specification:
    the tide level of a date is obtained from the external tide series by
    nearest-timestamp lookup, the closest sample in absolute time, ties broken
    by the earlier sample.  An empty series has no sample to return. *)
Definition tideLevel (series : list (datetime * float)) (d : datetime) : option float :=
  match series with
  | [] => None
  | s :: rest => Some (snd (closest_sample d s rest))
  end.

(** Modelled from the spec: the lookup is made for each date. *)
Fixpoint tide_levels (series : list (datetime * float)) (dates : list datetime)
    : option ndarray :=
  match dates with
  | [] => Some []
  | d :: dates' =>
      match tideLevel series d, tide_levels series dates' with
      | Some v, Some vs => Some (v :: vs)
      | _, _ => None
      end
  end.

(** Modelled from the spec: [get_closest_datapoint(dates, dates_ts, values_ts)]
    pairs the timestamps with the values of the series and returns the tide
    level of each date, in a new array. *)
Definition get_closest_datapoint (dates dates_ts : list datetime) (values_ts : loc)
    : M loc :=
  values <- deref values_ts ;;
  match tide_levels (combine dates_ts values) dates with
  | Some tides => alloc tides
  | None => raise
  end.

(** The order by which samples are ranked for a date [d]: [t] is at least as
    good a match as [t'] when it is closer, or as close and not later. *)
Definition at_least_as_close (d t t' : datetime) : Prop :=
  (Z.abs (t - d) <= Z.abs (t' - d))%Z /\
  (Z.abs (t - d) = Z.abs (t' - d) -> t <= t')%Z.

End SDS_tools.

(** ** The intersection engine [SDS_transects.compute_intersection_QC]

    The notebook calls this function of the [coastsat] package; its body is
    not part of the notebook.  The definitions of this module follow sections
    4.1, 4.3 and 7 of the specification. *)

Module SDS_transects.

(** *** Geometry (specification, section 4.1) *)

(** Modelled from the spec: the length of a transect, a derived attribute of
    its two ends. *)
Definition transect_length (t : Transect) : float :=
  let dx := F64.sub (fst (endpoint t)) (fst (origin t)) in
  let dy := F64.sub (snd (endpoint t)) (snd (origin t)) in
  F64.sqrt (F64.add (F64.mul dx dx) (F64.mul dy dy)).

(** Modelled from the spec: [projectOntoTransect(transect, point)] returns the
    chainage, the signed distance along the transect direction from the
    origin, and the offset, the perpendicular distance from the transect
    line. *)
Definition projectOntoTransect (t : Transect) (p : point) : float * float :=
  let len := transect_length t in
  let ux := F64.div (F64.sub (fst (endpoint t)) (fst (origin t))) len in
  let uy := F64.div (F64.sub (snd (endpoint t)) (snd (origin t))) len in
  let px := F64.sub (fst p) (fst (origin t)) in
  let py := F64.sub (snd p) (snd (origin t)) in
  (F64.add (F64.mul px ux) (F64.mul py uy),
   F64.sub (F64.mul px uy) (F64.mul py ux)).

(** Modelled from the spec: [pointsWithinAlongshoreBand] returns all points
    whose absolute offset is at most [band], regardless of chainage sign. *)
Definition pointsWithinAlongshoreBand (t : Transect) (points : list point)
    (band : float) : list point :=
  filter (fun p => F64.leb (F64.abs (snd (projectOntoTransect t p))) band) points.

(** Modelled from the spec: a malformed transect is a fatal error.  The
    specification does not say what makes a transect malformed; here it is one
    with no unit direction vector, its two ends coinciding or not finite. *)
Definition well_formed (t : Transect) : bool :=
  F64.ltb (F64.of_Z 0) (transect_length t) && F64.is_finite (transect_length t).

(** *** Statistics of a set of chainages

    Steps 4 and 5 of section 4.3 use the median, the standard deviation and
    the range (max - min) of the chainages. *)

(** Modelled from the spec: chainages are put in increasing order (insertion
    into a sorted list). *)
Fixpoint insert (x : float) (xs : list float) : list float :=
  match xs with
  | [] => [x]
  | y :: ys => if F64.leb x y then x :: xs else y :: insert x ys
  end.

(** Modelled from the spec: the sorted chainages, for the median, the range
    and the gap analysis. *)
Definition sort (xs : list float) : list float := fold_right insert [] xs.

(** Modelled from the spec: the median chainage, the middle value of the
    sorted chainages or the mean of the two middle ones. *)
Definition median (xs : list float) : float :=
  let s := sort xs in
  let n := List.length s in
  if Nat.even n
  then F64.div (F64.add (nth (n / 2 - 1) s F64.nan) (nth (n / 2) s F64.nan))
               (F64.of_Z 2)
  else nth (n / 2) s F64.nan.

(** Modelled from the spec: the mean, for the standard deviation. *)
Definition mean (xs : list float) : float :=
  F64.div (fold_left F64.add xs (F64.of_Z 0)) (F64.of_nat (List.length xs)).

(** Modelled from the spec: the standard deviation of the chainages (of the
    population). *)
Definition std (xs : list float) : float :=
  let m := mean xs in
  F64.sqrt (mean (map (fun x => F64.mul (F64.sub x m) (F64.sub x m)) xs)).

(** Modelled from the spec: the largest chainage (max). *)
Definition maximum (xs : list float) : float := last (sort xs) F64.nan.

(** Modelled from the spec: the smallest chainage (min). *)
Definition minimum (xs : list float) : float := hd F64.nan (sort xs).

(** Modelled from the spec: the range, max - min. *)
Definition range (xs : list float) : float := F64.sub (maximum xs) (minimum xs).

(** *** One (transect, date) cell (specification, section 4.3) *)

(** Modelled from the spec: step 4, the dispersion gate trips when the
    standard deviation exceeds [maxStd] or the range exceeds [maxRange]. *)
Definition dispersion_gate_trips (maxStd maxRange : float)
    (chainages : list float) : bool :=
  F64.ltb maxStd (std chainages) || F64.ltb maxRange (range chainages).

(** Modelled from the spec: what the first pass finds at one date, that is
    too few points (step 2), one coherent cluster (step 5), a tripped gate
    that no clustering resolves (step 4), or several clusters (step 6). *)
Inductive analysis : Type :=
| TooFewPoints
| OneCluster (chainages : list float)
| Unresolved
| SeveralClusters (clusters : list (list float)).

(** Modelled from the spec: the policy in force for a whole transect, "nan"
    or "max". *)
Inductive resolution : Type := UseNan | UseMax.

(** Modelled from the spec: several clusters were detected at this date. *)
Definition multiple_detected (a : analysis) : bool :=
  match a with SeveralClusters _ => true | _ => false end.

(** Modelled from the spec: the seaward-most cluster is the one with the
    largest chainage values. *)
Fixpoint seaward_most (clusters : list (list float)) : list float :=
  match clusters with
  | [] => []
  | [c] => c
  | c :: rest =>
      let c' := seaward_most rest in
      if F64.ltb (maximum c) (maximum c') then c' else c
  end.

Section Engine.

(** The specification leaves the clustering rule open (section 9): the engine
    is modelled for any rule that splits a set of chainages given the two
    dispersion bounds [maxStd] and [maxRange]. *)
Variable clusters : float -> float -> list float -> list (list float).

(** Modelled from the spec: steps 1 to 6, select the points of the alongshore
    band; fewer than [minPoints] gives no estimate; otherwise take their
    chainages, and when the dispersion gate trips look for clusters. *)
Definition analyse (s : settings_t) (t : Transect) (points : list point) : analysis :=
  let selected := pointsWithinAlongshoreBand t points (along_dist s) in
  if List.length selected <? min_points s then TooFewPoints
  else
    let chainages := map (fun p => fst (projectOntoTransect t p)) selected in
    if dispersion_gate_trips (max_std s) (max_range s) chainages then
      match clusters (max_std s) (max_range s) chainages with
      | [] => Unresolved
      | [c] => OneCluster c
      | cs => SeveralClusters cs
      end
    else OneCluster chainages.

(** Modelled from the spec: steps 5 and 6, the median chainage of a single
    cluster; for several clusters NaN under ["nan"], the median of the
    seaward-most cluster under ["max"]. *)
Definition chosen (policy : resolution) (a : analysis) : float :=
  match a with
  | TooFewPoints => F64.nan
  | Unresolved => F64.nan
  | OneCluster c => median c
  | SeveralClusters cs =>
      match policy with
      | UseNan => F64.nan
      | UseMax => median (seaward_most cs)
      end
  end.

(** Modelled from the spec: step 7, a chosen chainage below [minChainage] is
    replaced with NaN. *)
Definition landward_rejection (s : settings_t) (v : float) : float :=
  if F64.ltb v (min_chainage s) then F64.nan else v.

(** Modelled from the spec: the value of one (transect, date) cell under a
    given policy. *)
Definition intersect (s : settings_t) (policy : resolution) (t : Transect)
    (points : list point) : float :=
  landward_rejection s (chosen policy (analyse s t points)).

(** Modelled from the spec: step 6, ["auto"], the fraction of the dates of the
    transect for which several clusters were detected, compared with
    [autoPrc]. *)
Definition fraction_multiple (analyses : list analysis) : float :=
  F64.div (F64.of_nat (List.length (filter multiple_detected analyses)))
          (F64.of_nat (List.length analyses)).

(** Modelled from the spec: the dates of a transect at which several clusters
    are detected. *)
Definition dates_with_multiple (s : settings_t) (t : Transect)
    (shorelines : list (list point)) : list (list point) :=
  filter (fun points => multiple_detected (analyse s t points)) shorelines.

(** Modelled from the spec: ["nan"] and ["max"] are fixed policies; ["auto"]
    is "max" when the fraction exceeds [autoPrc], "nan" otherwise. *)
Definition decide (s : settings_t) (analyses : list analysis) : resolution :=
  match multiple_inter s with
  | inter_nan => UseNan
  | inter_max => UseMax
  | inter_auto =>
      if F64.ltb (prc_multiple s) (fraction_multiple analyses) then UseMax else UseNan
  end.

(** Modelled from the spec: two passes over the dates of one transect,
    collect then resolve (sections 5 and 9). *)
Definition transect_series (s : settings_t) (t : Transect)
    (shorelines : list (list point)) : ndarray :=
  let analyses := map (analyse s t) shorelines in
  let policy := decide s analyses in
  map (fun a => landward_rejection s (chosen policy a)) analyses.

(** Modelled from the spec: the cross-distance series of a transect is stored
    under the name of the transect. *)
Definition intersect_transect (s : settings_t) (transects : dict Transect)
    (shorelines : list (list point)) (key : string) (cross_dist : pydict) : M pydict :=
  t <- dict_getitem transects key ;;
  series <- alloc (transect_series s t shorelines) ;;
  ret (dict_setitem cross_dist key series).

(** Modelled from the spec: the body of [compute_intersection_QC] is not part
    of the notebook, which only calls it.  Sections 4.3 and 7 of the
    specification: a malformed transect is a fatal error, raised before any
    computation; no shorelines or no transects give an absent result
    ([None], returned, not raised); otherwise every transect gets one series
    with one cell per date, rejected cells holding NaN. *)
Definition compute_intersection_QC (output : output_t) (transects : dict Transect)
    (s : settings_t) : M (option pydict) :=
  if forallb (fun kt => well_formed (snd kt)) transects then
    match output_shorelines output, transects with
    | [], _ => ret None
    | _, [] => ret None
    | shorelines, _ =>
        cross_dist <- for_each (dict_keys transects)
                        (intersect_transect s transects shorelines) [] ;;
        ret (Some cross_dist)
    end
  else raise.

End Engine.

(** *** A clustering rule

    Modelled from the spec: one rule that fits the description of section
    4.3, step 6, used in the examples.  Cut the sorted chainages at every gap
    wider than [maxStd], and accept the cut when each side passes the
    dispersion gate on its own. *)

(** Modelled from the spec: the gap analysis on sorted chainages. *)
Fixpoint cut_at_gaps (gap prev : float) (current rest : list float)
    : list (list float) :=
  match rest with
  | [] => [rev current]
  | x :: rest' =>
      if F64.ltb gap (F64.sub x prev)
      then rev current :: cut_at_gaps gap x [x] rest'
      else cut_at_gaps gap x (x :: current) rest'
  end.

(** Modelled from the spec: the clusters, when each satisfies the dispersion
    bounds; no resolution otherwise. *)
Definition gap_clusters (maxStd maxRange : float) (chainages : list float)
    : list (list float) :=
  match sort chainages with
  | [] => []
  | x :: rest =>
      let cs := cut_at_gaps maxStd x [x] rest in
      if forallb (fun c => negb (dispersion_gate_trips maxStd maxRange c)) cs
      then cs else []
  end.

End SDS_transects.

(** ** A small store used in the examples

    Two transects over two dates, and the tide levels sampled at those dates. *)

Definition f64 (num den : Z) : float := F64.div (F64.of_Z num) (F64.of_Z den).

Definition example_heap : heap :=
  [ [F64.of_Z 100; F64.nan];        (* NA1: second date rejected *)
    [F64.of_Z 95; F64.of_Z 97];     (* NA2 *)
    [f64 1 2; f64 1 4] ].           (* tide levels 0.5 and 0.25 *)

Definition example_cross_distance : pydict := [("NA1"%string, 0); ("NA2"%string, 1)].
Definition example_tides_sat : loc := 2.

(** One date; raw distances 0.1 and 0.0, tide level 0.2. *)
Definition rounding_heap : heap := [ [f64 1 10]; [F64.of_Z 0]; [f64 2 10] ].

(** The inputs matching [example_heap]: two images, two transects (origin
    landward, on the x axis, 200 m long). *)
Definition pt (x y : Z) : point := (F64.of_Z x, F64.of_Z y).

Definition example_transects : dict Transect :=
  [ ("NA1"%string, {| origin := pt 0 0; endpoint := pt 200 0 |});
    ("NA2"%string, {| origin := pt 0 500; endpoint := pt 200 500 |}) ].

Definition example_output : output_t := {|
  output_dates := [1577836800000000; 1578268800000000]%Z;
  output_shorelines :=
    [ [pt 100 1; pt 102 (-2); pt 98 0; pt 95 499; pt 96 501; pt 94 500];
      [pt 40 1; pt 160 0; pt 97 499; pt 98 501; pt 96 500] ]
|}.

(** A tide gauge sampled at 0, 10 and 20 (levels 1, 2 and 3). *)
Definition gauge_heap : heap := [ [F64.of_Z 1; F64.of_Z 2; F64.of_Z 3] ].
Definition gauge_dates : list datetime := [0; 10; 20]%Z.

(** A transect crossed twice on some images: [calm] has the chainages 100,
    102 and 98; [lagoon] has 40, 41 and 160 (a gap, two clusters). *)
Definition NA1 : Transect := {| origin := pt 0 0; endpoint := pt 200 0 |}.
Definition calm : list point := [pt 100 1; pt 102 (-2); pt 98 0].
Definition lagoon : list point := [pt 40 1; pt 41 (-2); pt 160 0].

(** Four images seen from NA1 alone; the last one shows the lagoon, so one
    date in four has several clusters. *)
Definition lagoon_output : output_t := {|
  output_dates := [1577836800000000; 1578268800000000;
                   1578700800000000; 1579132800000000]%Z;
  output_shorelines := [calm; calm; calm; lagoon]
|}.

Definition lagoon_transects : dict Transect := [ ("NA1"%string, NA1) ].

(** ** Further notions used to describe the cells *)

(** Addresses stored in the result are below the top of the store and no two
    names share one. *)
Definition separate (acc : pydict) (h : heap) : Prop :=
  (forall k l, dict_get k acc = Some l -> l < List.length h) /\
  (forall k1 k2 l, k1 <> k2 ->
     dict_get k1 acc = Some l -> dict_get k2 acc = Some l -> False).


(** An export cell: [out_dict] starts with the dates, receives the series of
    [keys], and goes to [pd.DataFrame]. *)
Definition export (dates : list datetime) (keys : list string) (series : pydict)
    : M pd.frame :=
  out_dict <- fill_out_dict keys series (dict_setitem [] "dates" (DateList dates)) ;;
  pd.DataFrame out_dict.


(** *** Further examples *)

(** The result of the tidal-correction cell on [example_heap]: the names and
    the store it leaves. *)
Definition example_corrected : pydict := [("NA1"%string, 5); ("NA2"%string, 8)].

Definition example_heap_after : heap :=
  Eval vm_compute in
    match cross_distance_tidally_corrected reference_elevation beach_slope
            example_cross_distance example_tides_sat example_heap with
    | Some (_, h) => h
    | None => []
    end.

(** One image only: the tide series has a single level (0.5). *)
Definition single_tide_heap : heap :=
  [ [F64.of_Z 100; F64.nan]; [F64.of_Z 95; F64.of_Z 97]; [f64 1 2] ].

(** A series with one entry (NA1) beside a series with two. *)
Definition one_entry_heap : heap :=
  [ [F64.of_Z 100]; [F64.of_Z 95; F64.of_Z 97]; [f64 1 2; f64 1 4] ].

(** A series with three entries against two tide levels. *)
Definition misaligned_heap : heap :=
  [ [F64.of_Z 100; F64.nan; F64.of_Z 101]; [F64.of_Z 95; F64.of_Z 97];
    [f64 1 2; f64 1 4] ].

(** A transect that the user named ["dates"]. *)
Definition dates_transects : dict Transect :=
  [ ("dates"%string, {| origin := pt 0 0; endpoint := pt 200 0 |}) ].
Definition dates_cross_distance : pydict := [("dates"%string, 0)].


(** The table of a run of an export cell (an empty table when it raised). *)
Definition table_of (run : option (pd.frame * heap)) : pd.frame :=
  match run with
  | Some (df, _) => df
  | None => {| pd.index := []; pd.columns := [] |}
  end.



Definition dates_raw_table : pd.frame :=
  Eval vm_compute in
    table_of (transect_time_series example_output dates_transects
                dates_cross_distance example_heap).


(** ** The figure of the time series

<<
    fig = plt.figure(figsize=[15,8], tight_layout=True)
    gs = gridspec.GridSpec(len(cross_distance),1)
    gs.update(left=0.05, right=0.95, bottom=0.05, top=0.95, hspace=0.05)
    for i,key in enumerate(cross_distance.keys()):
        if np.all(np.isnan(cross_distance[key])):
            continue
        ax = fig.add_subplot(gs[i,0])
        ax.grid(linestyle=':', color='0.5')
        ax.set_ylim([-200,200])
        ax.plot(output['dates'],
                cross_distance[key]- np.nanmedian(cross_distance[key]), ...)
        ax.set_ylabel('distance [m]', fontsize=12)
        ax.text(0.5,0.95, key, ...)
>>
    The figure is modelled by what the cell hands to matplotlib: the grid, and
    for each subplot its row in the grid, the two arguments of [ax.plot] and
    the text.  The calls that only set a style ([gs.update], [ax.grid],
    [ax.set_ylim], [ax.set_ylabel]) take constants and are left out. *)

Module gridspec.

Record GridSpec_t : Type := { nrows : nat; ncols : nat }.

(** [gridspec.GridSpec(nrows, ncols)]: matplotlib raises [ValueError] unless
    both numbers are positive. *)
Definition GridSpec (rows cols : nat) : M GridSpec_t :=
  if (0 <? rows) && (0 <? cols)
  then ret {| nrows := rows; ncols := cols |}
  else raise.

(** [gs[i, j]] for indices that are not negative: [IndexError] outside of the
    grid. *)
Definition getitem (gs : GridSpec_t) (i j : nat) : M (nat * nat) :=
  if (i <? nrows gs) && (j <? ncols gs) then ret (i, j) else raise.

End gridspec.

Module axes.

(** [ax.plot(x, y)] for a list of dates and a one-dimensional array:
    matplotlib raises [ValueError] unless both have the same number of
    entries (nothing is stretched here, unlike in the addition of arrays). *)
Definition plot (x : list datetime) (y : ndarray) : M (list datetime * ndarray) :=
  if List.length x =? List.length y then ret (x, y) else raise.

End axes.

Module nanfunctions.

(** [np.all(np.isnan(a))]. *)
Definition all_isnan (a : ndarray) : bool := forallb F64.is_nan a.

(** Insertion into a sorted list, to put the values in increasing order. *)
Fixpoint insert (x : float) (xs : list float) : list float :=
  match xs with
  | [] => [x]
  | y :: ys => if F64.leb x y then x :: xs else y :: insert x ys
  end.

(** [np.median] of an array without NaN: the middle of the sorted values, the
    mean of the two middle ones for an even count, NaN for no value.  (Which
    of two zeros of opposite signs comes first is not fixed by numpy.) *)
Definition median (a : ndarray) : float :=
  let s := fold_right insert [] a in
  let n := List.length s in
  if Nat.even n
  then F64.div (F64.add (nth (n / 2 - 1) s F64.nan) (nth (n / 2) s F64.nan))
               (F64.of_Z 2)
  else nth (n / 2) s F64.nan.

(** [np.nanmedian(a)]: the median of the entries that are not NaN. *)
Definition nanmedian (a : ndarray) : float :=
  median (filter (fun v => negb (F64.is_nan v)) a).

End nanfunctions.

Record panel : Type := {
  panel_row : nat;
  panel_dates : list datetime;
  panel_values : ndarray;
  panel_text : string
}.

(** [enumerate(xs)]. *)
Definition enumerate {A} (xs : list A) : list (nat * A) :=
  combine (seq 0 (List.length xs)) xs.

Definition plot_transect (gs : gridspec.GridSpec_t) (dates : list datetime)
    (cross_distance : pydict) (ik : nat * string) (fig : list panel)
    : M (list panel) :=
  series <- dict_getitem cross_distance (snd ik) ;;
  values <- deref series ;;
  if nanfunctions.all_isnan values then ret fig
  else
    cell <- gridspec.getitem gs (fst ik) 0 ;;
    centred <- np.sub_scalar series (nanfunctions.nanmedian values) ;;
    y <- deref centred ;;
    line <- axes.plot dates y ;;
    ret (fig ++ [{| panel_row := fst cell; panel_dates := fst line;
                    panel_values := snd line; panel_text := snd ik |}]).

Definition plot_time_series (output : output_t) (cross_distance : pydict)
    : M (list panel) :=
  gs <- gridspec.GridSpec (List.length cross_distance) 1 ;;
  for_each (enumerate (dict_keys cross_distance))
    (plot_transect gs (output_dates output) cross_distance) [].

(** The rows and names that the loop visits lie in the grid and among the
    keys. *)
Definition in_grid (gs : gridspec.GridSpec_t) (cross_distance : pydict)
    (iks : list (nat * string)) : Prop :=
  forall i k, In (i, k) iks ->
    In k (dict_keys cross_distance) /\ i < gridspec.nrows gs.

(** Every series that the loop plots has [n] entries. *)
Definition plottable (h : heap) (cross_distance : pydict) (n : nat)
    (iks : list (nat * string)) : Prop :=
  forall i k a, In (i, k) iks ->
    series_at h cross_distance k = Some a ->
    nanfunctions.all_isnan a = false ->
    List.length a = n.

(** A store where every entry of NA1 is NaN. *)
Definition all_nan_heap : heap :=
  [ [F64.nan; F64.nan]; [F64.of_Z 95; F64.of_Z 97]; [f64 1 2; f64 1 4] ].

(** * Facts about the model *)

(** ** binary64 *)

Lemma f64_add_nan_l (y : float) : F64.add F64.nan y = F64.nan.
Proof. reflexivity. Qed.

Lemma f64_add_nan_r (x : float) : F64.add x F64.nan = F64.nan.
Proof. destruct x; reflexivity. Qed.

Lemma f64_sub_diag (t : float) : F64.is_finite t = true -> F64.sub t t = S754_zero false.
Proof.
  destruct t as [s|s| |s m e]; simpl; try discriminate; intros _.
  - destruct s; reflexivity.
  - unfold F64.sub, SFsub. rewrite Z.sub_diag. reflexivity.
Qed.

Lemma f64_div_zero_l (s : bool) (y : float) :
  F64.is_nan y = false -> F64.is_zero y = false ->
  exists s', F64.div (S754_zero s) y = S754_zero s'.
Proof.
  destruct y as [sy|sy| |sy m e]; simpl; try discriminate; intros _ _;
    eexists; reflexivity.
Qed.

Lemma f64_compare_refl (x : float) :
  F64.is_nan x = false -> SFcompare x x = Some Eq.
Proof.
  destruct x as [s|s| |s m e]; simpl; try discriminate; intros _.
  - reflexivity.
  - destruct s; reflexivity.
  - rewrite Z.compare_refl, Pos.compare_cont_refl. destruct s; reflexivity.
Qed.

Lemma f64_eqb_refl (x : float) : F64.is_nan x = false -> F64.eqb x x = true.
Proof. intros H. unfold F64.eqb, SFeqb. now rewrite f64_compare_refl. Qed.

Lemma f64_add_zero_r (x : float) (s : bool) :
  F64.is_finite x = true -> F64.eqb (F64.add x (S754_zero s)) x = true.
Proof.
  destruct x as [sx|sx| |sx m e]; simpl; try discriminate; intros _.
  - destruct sx, s; reflexivity.
  - change (F64.add (S754_finite sx m e) (S754_zero s)) with (S754_finite sx m e).
    now apply f64_eqb_refl.
Qed.

(** Dividing by a zero never yields a finite number. *)
Lemma f64_div_by_zero_not_finite (x : float) (s : bool) :
  F64.is_finite (F64.div x (S754_zero s)) = false.
Proof. destruct x; reflexivity. Qed.

Lemma f64_add_not_finite_r (x c : float) :
  F64.is_finite c = false -> F64.is_finite (F64.add x c) = false.
Proof.
  destruct c as [sc|sc| |sc mc ec]; simpl; try discriminate; intros _.
  - destruct x as [sx|sx| |sx m e]; try reflexivity.
    destruct sx, sc; reflexivity.
  - destruct x; reflexivity.
Qed.


(** ** Reasoning about the store and the dictionaries *)

Lemma nth_error_grow (h ext : heap) (l : loc) (a : ndarray) :
  nth_error h l = Some a -> nth_error (h ++ ext) l = Some a.
Proof.
  intros H. rewrite nth_error_app1; [exact H|].
  apply nth_error_Some. congruence.
Qed.

Lemma nth_error_last (h : heap) (a : ndarray) :
  nth_error (h ++ [a]) (List.length h) = Some a.
Proof.
  rewrite nth_error_app2 by lia. now rewrite Nat.sub_diag.
Qed.

Lemma dict_get_In {V} (k : string) (d : dict V) (l : V) :
  dict_get k d = Some l -> In (k, l) d.
Proof.
  induction d as [|[k' v] d IH]; simpl; [discriminate|].
  destruct (String.eqb_spec k k') as [->|Hne].
  - intros [= ->]. now left.
  - intros H. right. now apply IH.
Qed.

Lemma dict_keys_get {V} (k : string) (d : dict V) :
  In k (dict_keys d) -> exists l, dict_get k d = Some l.
Proof.
  induction d as [|[k' v] d IH]; simpl; [tauto|].
  intros H. destruct (String.eqb_spec k k') as [->|Hne].
  - now exists v.
  - destruct H as [H|H]; [congruence|]. now apply IH.
Qed.

Lemma dict_get_keys {V} (k : string) (d : dict V) (l : V) :
  dict_get k d = Some l -> In k (dict_keys d).
Proof.
  intros H. apply dict_get_In in H.
  unfold dict_keys. change k with (fst (k, l)). now apply in_map.
Qed.

Lemma dict_get_none_keys {V} (k : string) (d : dict V) :
  dict_get k d = None -> ~ In k (dict_keys d).
Proof.
  intros H Hin. apply dict_keys_get in Hin as [l Hl]. congruence.
Qed.

Lemma dict_get_setitem_eq {V} (d : dict V) (k : string) (v : V) :
  dict_get k (dict_setitem d k v) = Some v.
Proof.
  induction d as [|[k' v'] d IH]; simpl.
  - now rewrite String.eqb_refl.
  - destruct (String.eqb_spec k k') as [->|Hne]; simpl.
    + now rewrite String.eqb_refl.
    + destruct (String.eqb_spec k k'); [contradiction|exact IH].
Qed.

Lemma dict_get_setitem_neq {V} (d : dict V) (k k0 : string) (v : V) :
  k0 <> k -> dict_get k0 (dict_setitem d k v) = dict_get k0 d.
Proof.
  intros Hne. induction d as [|[k' v'] d IH]; simpl.
  - destruct (String.eqb_spec k0 k); [contradiction|reflexivity].
  - destruct (String.eqb_spec k k') as [->|Hkk']; simpl.
    + destruct (String.eqb_spec k0 k'); [contradiction|reflexivity].
    + destruct (String.eqb_spec k0 k'); [reflexivity|exact IH].
Qed.

Lemma map2_length {A B C} (f : A -> B -> C) (xs : list A) (ys : list B) :
  List.length xs = List.length ys -> List.length (map2 f xs ys) = List.length xs.
Proof.
  revert ys. induction xs as [|x xs IH]; intros [|y ys]; simpl; try discriminate; auto.
Qed.

Lemma map2_nth_error {A B C} (f : A -> B -> C) (xs : list A) (ys : list B)
    (i : nat) (x : A) (y : B) :
  nth_error xs i = Some x -> nth_error ys i = Some y ->
  nth_error (map2 f xs ys) i = Some (f x y).
Proof.
  revert ys i. induction xs as [|x0 xs IH]; intros [|y0 ys] [|i]; simpl;
    try discriminate.
  - intros [= ->] [= ->]. reflexivity.
  - apply IH.
Qed.

Lemma broadcast_add_same_length (x y : ndarray) :
  List.length x = List.length y -> np.broadcast_add x y = Some (map2 F64.add x y).
Proof.
  intros H. unfold np.broadcast_add. now rewrite H, Nat.eqb_refl.
Qed.

(** Array operators on an allocated operand. *)

Lemma sub_scalar_run (a : loc) (s : float) (h : heap) (x : ndarray) :
  nth_error h a = Some x ->
  np.sub_scalar a s h = Some (List.length h, h ++ [map (fun v => F64.sub v s) x]).
Proof. intros H. unfold np.sub_scalar, bind, deref, alloc. now rewrite H. Qed.

Lemma div_scalar_run (a : loc) (s : float) (h : heap) (x : ndarray) :
  nth_error h a = Some x ->
  np.div_scalar a s h = Some (List.length h, h ++ [map (fun v => F64.div v s) x]).
Proof. intros H. unfold np.div_scalar, bind, deref, alloc. now rewrite H. Qed.

Lemma add_run (a b : loc) (h : heap) (x y : ndarray) :
  nth_error h a = Some x -> nth_error h b = Some y ->
  List.length x = List.length y ->
  np.add a b h = Some (List.length h, h ++ [map2 F64.add x y]).
Proof.
  intros Ha Hb Hlen. unfold np.add, bind, deref.
  rewrite Ha, Hb, (broadcast_add_same_length _ _ Hlen). reflexivity.
Qed.

(** ** The tidal-correction loop, step by step *)

Section TidalCorrectionFacts.

Variable elevation slope : float.
Variable cross_distance : pydict.
Variable tides_sat : loc.

Lemma correction_of_length (tides : ndarray) :
  List.length (correction_of elevation slope tides) = List.length tides.
Proof. unfold correction_of. now rewrite !length_map. Qed.

Lemma correction_of_nth (tides : ndarray) (i : nat) (t : float) :
  nth_error tides i = Some t ->
  nth_error (correction_of elevation slope tides) i = Some (F64.div (F64.sub t elevation) slope).
Proof.
  intros H. unfold correction_of.
  rewrite !nth_error_map, H. reflexivity.
Qed.

(** One iteration allocates three arrays (two for the correction, one for the
    sum) and stores a reference to the last one under [key]. *)
Lemma correct_transect_step (key : string) (acc : pydict) (h : heap)
    (tides raw : ndarray) (l : loc) :
  nth_error h tides_sat = Some tides ->
  dict_get key cross_distance = Some l ->
  nth_error h l = Some raw ->
  List.length raw = List.length tides ->
  correct_transect elevation slope cross_distance tides_sat key acc h =
  Some (dict_setitem acc key (S (S (List.length h))),
        h ++ [map (fun v => F64.sub v elevation) tides;
              correction_of elevation slope tides;
              corrected_series elevation slope tides raw]).
Proof.
  intros Ht Hk Hl Hlen.
  unfold correct_transect, bind.
  rewrite (sub_scalar_run _ _ _ _ Ht).
  rewrite (div_scalar_run _ _ _ _ (nth_error_last h _)).
  unfold dict_getitem. rewrite Hk. unfold ret at 1.
  erewrite add_run.
  - unfold ret. rewrite !length_app. simpl.
    rewrite <- !app_assoc. simpl.
    replace (List.length h + 1 + 1) with (S (S (List.length h))) by lia.
    reflexivity.
  - rewrite <- app_assoc. apply nth_error_grow. exact Hl.
  - apply nth_error_last.
  - now rewrite correction_of_length.
Qed.

End TidalCorrectionFacts.

(** ** The whole loop on a store where the series are aligned with the tides *)

Section TidalCorrectionLoop.

Variable elevation slope : float.
Variable cross_distance : pydict.
Variable tides_sat : loc.
Variable h0 : heap.
Variable tides : ndarray.

Hypothesis tides_allocated : nth_error h0 tides_sat = Some tides.
Hypothesis series_aligned : aligned h0 cross_distance (List.length tides).

Lemma for_each_correct_transect (ks : list string) :
  (forall k, In k ks -> In k (dict_keys cross_distance)) ->
  forall (acc : pydict) (ext : list ndarray),
  exists (acc' : pydict) (ext' : list ndarray),
    for_each ks (correct_transect elevation slope cross_distance tides_sat) acc
      (h0 ++ ext) = Some (acc', h0 ++ ext ++ ext') /\
    (forall k, ~ In k ks -> dict_get k acc' = dict_get k acc) /\
    (forall k raw, In k ks -> series_at h0 cross_distance k = Some raw ->
       exists l', dict_get k acc' = Some l' /\ List.length h0 <= l' /\
                  nth_error (h0 ++ ext ++ ext') l' = Some (corrected_series elevation slope tides raw)).
Proof.
  induction ks as [|k ks IH]; intros Hks acc ext.
  - exists acc, []. simpl. rewrite app_nil_r. repeat split; auto.
    intros k raw [].
  - destruct (dict_keys_get k cross_distance) as [l Hl]; [apply Hks; now left|].
    destruct (series_aligned k _ Hl) as (raw & Hraw & Hlen).
    set (new := [map (fun v => F64.sub v elevation) tides;
                 correction_of elevation slope tides;
                 map2 F64.add raw (correction_of elevation slope tides)]).
    set (l1 := S (S (List.length (h0 ++ ext)))).
    destruct (IH (fun k0 H => Hks k0 (or_intror H)) (dict_setitem acc k l1)
                (ext ++ new)) as (acc' & ext' & Hrun & Hout & Hin).
    exists acc', (new ++ ext').
    assert (Hstep : correct_transect elevation slope cross_distance tides_sat k acc
                      (h0 ++ ext) = Some (dict_setitem acc k l1, h0 ++ ext ++ new)).
    { rewrite app_assoc. apply correct_transect_step with (l := l); auto.
      - apply nth_error_grow. exact tides_allocated.
      - apply nth_error_grow. exact Hraw. }
    split; [|split].
    + simpl. unfold bind. rewrite Hstep. rewrite Hrun.
      now rewrite <- !app_assoc.
    + intros k0 Hk0. rewrite Hout by (intros H; apply Hk0; now right).
      apply dict_get_setitem_neq. intros ->. apply Hk0. now left.
    + intros k0 raw0 Hk0 Hraw0.
      destruct (in_dec string_dec k0 ks) as [Hks0|Hks0].
      * destruct (Hin k0 raw0 Hks0 Hraw0) as (l' & H1 & H2 & H3).
        exists l'. repeat split; auto. now rewrite <- app_assoc in H3.
      * destruct Hk0 as [<-|Hk0]; [|contradiction].
        exists l1. rewrite (Hout k Hks0), dict_get_setitem_eq.
        unfold series_at in Hraw0. rewrite Hl, Hraw in Hraw0.
        injection Hraw0 as <-.
        repeat split.
        -- unfold l1. rewrite length_app. lia.
        -- replace (h0 ++ ext ++ new ++ ext')
             with (((h0 ++ ext) ++
                    [map (fun v => F64.sub v elevation) tides;
                     correction_of elevation slope tides]) ++
                   [corrected_series elevation slope tides raw] ++ ext').
           2:{ unfold new, corrected_series. rewrite <- !app_assoc. reflexivity. }
           unfold l1. generalize (h0 ++ ext). intros h.
           rewrite nth_error_app2; rewrite length_app; cbn [List.length]; [|lia].
           replace (S (S (List.length h)) - (List.length h + 2)) with 0 by lia.
           reflexivity.
Qed.

(** The cell returns; it only allocates; every raw series gets a freshly
    allocated corrected series; no other key appears. *)
Lemma tidal_correction_run :
  exists (corrected : pydict) (ext : list ndarray),
    cross_distance_tidally_corrected elevation slope cross_distance tides_sat h0
      = Some (corrected, h0 ++ ext) /\
    (forall k raw, series_at h0 cross_distance k = Some raw ->
       exists l', dict_get k corrected = Some l' /\ List.length h0 <= l' /\
                  nth_error (h0 ++ ext) l' = Some (corrected_series elevation slope tides raw)) /\
    (forall k, dict_get k cross_distance = None -> dict_get k corrected = None).
Proof.
  destruct (for_each_correct_transect (dict_keys cross_distance)
              (fun k H => H) [] []) as (acc' & ext' & Hrun & Hout & Hin).
  exists acc', ext'. rewrite app_nil_r in Hrun. simpl in *.
  split; [exact Hrun|split].
  - intros k raw Hk. apply Hin; [|exact Hk].
    unfold series_at in Hk. destruct (dict_get k cross_distance) eqn:E;
      [|discriminate]. eapply dict_get_keys; eauto.
  - intros k Hk. rewrite Hout; [reflexivity|]. now apply dict_get_none_keys.
Qed.

End TidalCorrectionLoop.

(** ** The cell as a whole, read through [series_at] *)

Lemma aligned_series (h : heap) (d : pydict) (n : nat) (k : string) (a : ndarray) :
  aligned h d n -> series_at h d k = Some a -> List.length a = n.
Proof.
  intros Hal Hk. unfold series_at in Hk.
  destruct (dict_get k d) as [l|] eqn:E; [|discriminate].
  destruct (Hal k _ E) as (a' & Ha' & Hlen). congruence.
Qed.

Lemma aligned_allocated (h : heap) (d : pydict) (n : nat) (k : string) (l : loc) :
  aligned h d n -> dict_get k d = Some l -> exists a, series_at h d k = Some a.
Proof.
  intros Hal Hk. destruct (Hal k _ Hk) as (a & Ha & _).
  exists a. unfold series_at. now rewrite Hk.
Qed.

Lemma nth_error_same_length {A B} (xs : list A) (ys : list B) (i : nat) (x : A) :
  List.length xs = List.length ys -> nth_error xs i = Some x ->
  exists y, nth_error ys i = Some y.
Proof.
  intros Hlen Hx.
  assert (Hi : i < List.length ys).
  { rewrite <- Hlen. apply nth_error_Some. congruence. }
  destruct (nth_error ys i) as [y|] eqn:E; [now exists y|].
  apply nth_error_None in E. lia.
Qed.

Lemma corrected_series_length (elevation slope : float) (tides raw : ndarray) :
  List.length raw = List.length tides ->
  List.length (corrected_series elevation slope tides raw) = List.length tides.
Proof.
  intros H. unfold corrected_series.
  rewrite map2_length; [exact H|]. now rewrite correction_of_length.
Qed.

Lemma corrected_series_nth (elevation slope : float) (tides raw : ndarray)
    (i : nat) (r t : float) :
  nth_error raw i = Some r -> nth_error tides i = Some t ->
  nth_error (corrected_series elevation slope tides raw) i =
  Some (F64.add r (F64.div (F64.sub t elevation) slope)).
Proof.
  intros Hr Ht. unfold corrected_series.
  apply map2_nth_error; [exact Hr|]. now apply correction_of_nth.
Qed.

(** The run of the cell, read through [series_at]. *)
Lemma tidal_correction_series (elevation slope : float) (cross_distance : pydict)
    (tides_sat : loc) (h : heap) (tides : ndarray) :
  nth_error h tides_sat = Some tides ->
  aligned h cross_distance (List.length tides) ->
  exists (corrected : pydict) (ext : list ndarray),
    cross_distance_tidally_corrected elevation slope cross_distance tides_sat h
      = Some (corrected, h ++ ext) /\
    (forall k raw, series_at h cross_distance k = Some raw ->
       series_at (h ++ ext) corrected k =
       Some (corrected_series elevation slope tides raw)) /\
    (forall k l', dict_get k corrected = Some l' ->
       List.length h <= l' /\ exists l, dict_get k cross_distance = Some l) /\
    aligned (h ++ ext) corrected (List.length tides).
Proof.
  intros Ht Hal.
  destruct (tidal_correction_run elevation slope _ _ _ _ Ht Hal)
    as (corrected & ext & Hrun & Hin & Hout).
  exists corrected, ext. split; [exact Hrun|split; [|split]].
  - intros k raw Hk. destruct (Hin k raw Hk) as (l' & Hl' & _ & Hnth).
    unfold series_at. now rewrite Hl'.
  - intros k l' Hl'.
    destruct (dict_get k cross_distance) as [l|] eqn:E.
    + destruct (aligned_allocated _ _ _ k _ Hal E) as (raw & Hraw).
      destruct (Hin k raw Hraw) as (l'' & Hl'' & Hfresh & _).
      split; [congruence|now exists l].
    + rewrite (Hout k E) in Hl'. discriminate.
  - intros k l' Hl'.
    destruct (dict_get k cross_distance) as [l|] eqn:E.
    + destruct (aligned_allocated _ _ _ k _ Hal E) as (raw & Hraw).
      destruct (Hin k raw Hraw) as (l'' & Hl'' & _ & Hnth).
      exists (corrected_series elevation slope tides raw). split.
      * congruence.
      * apply corrected_series_length. exact (aligned_series _ _ _ k _ Hal Hraw).
    + rewrite (Hout k E) in Hl'. discriminate.
Qed.

Lemma example_aligned : aligned example_heap example_cross_distance 2.
Proof.
  intros k l H. unfold example_cross_distance in H. simpl in H.
  destruct (String.eqb k "NA1"); [|destruct (String.eqb k "NA2")];
    try discriminate; injection H as <-; eexists; split; reflexivity.
Qed.

Lemma rounding_aligned : aligned rounding_heap example_cross_distance 1.
Proof.
  intros k l H. unfold example_cross_distance in H. simpl in H.
  destruct (String.eqb k "NA1"); [|destruct (String.eqb k "NA2")];
    try discriminate; injection H as <-; eexists; split; reflexivity.
Qed.

(** ** The export cells *)

Lemma In_dict_setitem {V} (d : dict V) (k k' : string) (v v' : V) :
  In (k', v') (dict_setitem d k v) -> In (k', v') d \/ (k' = k /\ v' = v).
Proof.
  induction d as [|[k0 v0] d IH]; simpl.
  - intros [[= <- <-]|[]]. now right.
  - destruct (String.eqb_spec k k0) as [->|Hne]; simpl.
    + intros [[= <- <-]|H]; [now right|left; now right].
    + intros [H|H]; [left; now left|].
      destruct (IH H) as [H'|H']; [left; now right|now right].
Qed.

Lemma dict_setitem_not_nil {V} (d : dict V) (k : string) (v : V) :
  dict_setitem d k v <> [].
Proof.
  destruct d as [|[k0 v0] d]; simpl; [discriminate|].
  destruct (String.eqb k k0); discriminate.
Qed.

Lemma fill_out_dict_run (series : pydict) (h : heap) (keys : list string) :
  (forall k, In k keys -> In k (dict_keys series)) ->
  forall out0 : dict pyvalue,
  exists out,
    fill_out_dict keys series out0 h = Some (out, h) /\
    (forall k, In k keys ->
       exists l, dict_get k series = Some l /\ dict_get k out = Some (ArrayRef l)) /\
    (forall k, ~ In k keys -> dict_get k out = dict_get k out0) /\
    (forall k v, In (k, v) out ->
       In (k, v) out0 \/ exists l, dict_get k series = Some l /\ v = ArrayRef l) /\
    (out0 <> [] -> out <> []).
Proof.
  unfold fill_out_dict.
  induction keys as [|k keys IH]; intros Hkeys out0.
  - exists out0. simpl. repeat split; auto. intros k [].
  - destruct (dict_keys_get k series) as [l Hl]; [apply Hkeys; now left|].
    destruct (IH (fun k0 H => Hkeys k0 (or_intror H))
                (dict_setitem out0 k (ArrayRef l)))
      as (out & Hrun & Hin & Hout & Hall & Hne).
    exists out. split; [|split; [|split; [|split]]].
    + simpl. unfold bind at 1. unfold dict_getitem, bind. rewrite Hl.
      unfold ret at 1 2. exact Hrun.
    + intros k0 Hk0.
      destruct (in_dec string_dec k0 keys) as [Hin0|Hin0]; [now apply Hin|].
      destruct Hk0 as [<-|Hk0]; [|contradiction].
      exists l. split; [exact Hl|].
      rewrite (Hout k Hin0). apply dict_get_setitem_eq.
    + intros k0 Hk0. rewrite Hout by (intros H; apply Hk0; now right).
      apply dict_get_setitem_neq. intros ->. apply Hk0. now left.
    + intros k0 v Hv. destruct (Hall k0 v Hv) as [H|H]; [|now right].
      destruct (In_dict_setitem _ _ _ _ _ H) as [H'|[-> ->]]; [now left|].
      right. now exists l.
    + intros _. apply Hne. apply dict_setitem_not_nil.
Qed.

Lemma load_columns_run (h : heap) (n : nat) (d : dict pyvalue) :
  (forall k v, In (k, v) d -> loadable h n v) ->
  exists cols,
    pd.load_columns d h = Some (cols, h) /\
    (forall k c, In (k, c) cols -> pd.column_length c = n) /\
    (forall k, dict_get k cols =
               match dict_get k d with
               | Some v => column_of h v
               | None => None
               end) /\
    List.length cols = List.length d.
Proof.
  induction d as [|[k v] d IH]; intros Hd.
  - exists []. simpl. repeat split; auto. intros k c [].
  - destruct (IH (fun k0 v0 H => Hd k0 v0 (or_intror H)))
      as (cols & Hrun & Hlen & Hget & Hsize).
    assert (Hv : exists c, pd.load_column v h = Some (c, h) /\
                           column_of h v = Some c /\ pd.column_length c = n).
    { specialize (Hd k v (or_introl eq_refl)). destruct v as [ds|l]; simpl in *.
      - exists (pd.DateColumn ds). repeat split; auto.
      - destruct Hd as (a & Ha & Hn). exists (pd.FloatColumn a).
        unfold bind, deref, ret. rewrite Ha. repeat split; auto. }
    destruct Hv as (c & Hc & Hcol & Hcn).
    exists ((k, c) :: cols). split; [|split; [|split]].
    + simpl. unfold bind. rewrite Hc, Hrun. reflexivity.
    + intros k0 c0 [[= <- <-]|H]; [exact Hcn|now apply (Hlen k0)].
    + intros k0. simpl. destruct (String.eqb k0 k); [now rewrite Hcol|apply Hget].
    + simpl. now rewrite Hsize.
Qed.

Lemma DataFrame_run (h : heap) (n : nat) (d : dict pyvalue) :
  d <> [] ->
  (forall k v, In (k, v) d -> loadable h n v) ->
  exists cols,
    pd.DataFrame d h = Some ({| pd.index := seq 0 n; pd.columns := cols |}, h) /\
    (forall k, dict_get k cols =
               match dict_get k d with
               | Some v => column_of h v
               | None => None
               end).
Proof.
  intros Hne Hd.
  destruct (load_columns_run h n d Hd) as (cols & Hrun & Hlen & Hget & Hsize).
  exists cols. split; [|exact Hget].
  unfold pd.DataFrame, bind. rewrite Hrun.
  destruct cols as [|[k0 c0] cols'].
  - destruct d; [contradiction|discriminate].
  - assert (Hall : forallb (fun kc => pd.column_length (snd kc) =? pd.column_length c0)
                     ((k0, c0) :: cols') = true).
    { apply forallb_forall. intros [k c] Hin. simpl.
      rewrite (Hlen k c Hin), (Hlen k0 c0 (or_introl eq_refl)).
      apply Nat.eqb_refl. }
    rewrite Hall. unfold ret.
    now rewrite (Hlen k0 c0 (or_introl eq_refl)).
Qed.

(** The table built from a date list and a dictionary of aligned series. *)
Lemma table_run (h : heap) (dates : list datetime) (keys : list string)
    (series : pydict) :
  aligned h series (List.length dates) ->
  (forall k, In k keys -> In k (dict_keys series)) ->
  exists out cols,
    fill_out_dict keys series (dict_setitem [] "dates" (DateList dates)) h
      = Some (out, h) /\
    pd.DataFrame out h =
      Some ({| pd.index := seq 0 (List.length dates); pd.columns := cols |}, h) /\
    (forall k, In k keys ->
       exists a, series_at h series k = Some a /\
                 dict_get k cols = Some (pd.FloatColumn a) /\
                 List.length a = List.length dates) /\
    (~ In "dates"%string keys ->
       dict_get "dates" cols = Some (pd.DateColumn dates)).
Proof.
  intros Hal Hkeys.
  destruct (fill_out_dict_run series h keys Hkeys
              (dict_setitem [] "dates" (DateList dates)))
    as (out & Hfill & Hin & Hout & Hall & Hne).
  assert (Hload : forall k v, In (k, v) out -> loadable h (List.length dates) v).
  { intros k v Hv. destruct (Hall k v Hv) as [H|(l & Hl & ->)].
    - simpl in H. destruct H as [[= <- <-]|[]]. reflexivity.
    - simpl. exact (Hal k l Hl). }
  destruct (DataFrame_run h (List.length dates) out
              (Hne (dict_setitem_not_nil _ _ _)) Hload) as (cols & Hdf & Hget).
  exists out, cols. split; [exact Hfill|]. split; [exact Hdf|]. split.
  - intros k Hk. destruct (Hin k Hk) as (l & Hl & Hol).
    destruct (Hal k l Hl) as (a & Ha & Hn).
    exists a. unfold series_at. rewrite Hl. split; [exact Ha|]. split; [|exact Hn].
    rewrite Hget, Hol. simpl. now rewrite Ha.
  - intros Hd. rewrite Hget, (Hout _ Hd). reflexivity.
Qed.

Lemma sorted_nth_lt (ds : list datetime) (i j : nat) (a b : datetime) :
  StronglySorted Z.lt ds -> i < j ->
  nth_error ds i = Some a -> nth_error ds j = Some b -> (a < b)%Z.
Proof.
  intros Hs. revert i j. induction Hs as [|d ds Hs IH Hd]; intros i j Hij Ha Hb.
  - destruct i; discriminate.
  - destruct j as [|j]; [lia|]. destruct i as [|i]; simpl in *.
    + injection Ha as <-. apply nth_error_In in Hb.
      rewrite Forall_forall in Hd. now apply Hd.
    + apply (IH i j); auto. lia.
Qed.

(** ** The tide lookup *)

Lemma closer_true (d t t' : datetime) :
  SDS_tools.closer d t t' = true -> SDS_tools.at_least_as_close d t t'.
Proof.
  unfold SDS_tools.closer, SDS_tools.at_least_as_close. intros H.
  apply orb_true_iff in H as [H|H].
  - apply Z.ltb_lt in H. lia.
  - apply andb_true_iff in H as [H1 H2].
    apply Z.eqb_eq in H1. apply Z.ltb_lt in H2. lia.
Qed.

Lemma closer_false (d t t' : datetime) :
  SDS_tools.closer d t t' = false -> SDS_tools.at_least_as_close d t' t.
Proof.
  unfold SDS_tools.closer, SDS_tools.at_least_as_close. intros H.
  apply orb_false_iff in H as [H1 H2].
  apply Z.ltb_ge in H1.
  apply andb_false_iff in H2 as [H2|H2].
  - apply Z.eqb_neq in H2. lia.
  - apply Z.ltb_ge in H2. lia.
Qed.

Lemma at_least_as_close_refl (d t : datetime) : SDS_tools.at_least_as_close d t t.
Proof. unfold SDS_tools.at_least_as_close. lia. Qed.

Lemma at_least_as_close_trans (d t1 t2 t3 : datetime) :
  SDS_tools.at_least_as_close d t1 t2 -> SDS_tools.at_least_as_close d t2 t3 ->
  SDS_tools.at_least_as_close d t1 t3.
Proof. unfold SDS_tools.at_least_as_close. lia. Qed.

Lemma closest_sample_spec (d : datetime) (samples : list (datetime * float)) :
  forall best,
    In (SDS_tools.closest_sample d best samples) (best :: samples) /\
    forall x, In x (best :: samples) ->
      SDS_tools.at_least_as_close d (fst (SDS_tools.closest_sample d best samples)) (fst x).
Proof.
  induction samples as [|s rest IH]; intros best; simpl.
  - split; [now left|]. intros x [<-|[]]. apply at_least_as_close_refl.
  - destruct (IH (if SDS_tools.closer d (fst s) (fst best) then s else best))
      as (Hin & Hle).
    destruct (SDS_tools.closer d (fst s) (fst best)) eqn:E.
    + split.
      * destruct Hin as [<-|Hin]; [right; now left|right; now right].
      * intros x [<-|[<-|Hx]].
        -- eapply at_least_as_close_trans; [apply Hle; now left|].
           now apply closer_true.
        -- apply Hle. now left.
        -- apply Hle. now right.
    + split.
      * destruct Hin as [<-|Hin]; [now left|right; now right].
      * intros x [<-|[<-|Hx]].
        -- apply Hle. now left.
        -- eapply at_least_as_close_trans; [apply Hle; now left|].
           now apply closer_false.
        -- apply Hle. now right.
Qed.

Lemma tideLevel_spec (series : list (datetime * float)) (d : datetime) :
  series <> [] ->
  exists t v,
    SDS_tools.tideLevel series d = Some v /\
    In (t, v) series /\
    forall t' v', In (t', v') series -> SDS_tools.at_least_as_close d t t'.
Proof.
  destruct series as [|s rest]; [contradiction|]. intros _.
  destruct (closest_sample_spec d rest s) as (Hin & Hle).
  destruct (SDS_tools.closest_sample d s rest) as [t v] eqn:E.
  exists t, v. simpl. rewrite E. split; [reflexivity|]. split; [exact Hin|].
  intros t' v' H. exact (Hle (t', v') H).
Qed.

Lemma tide_levels_spec (series : list (datetime * float)) (dates : list datetime) :
  series <> [] ->
  exists tides,
    SDS_tools.tide_levels series dates = Some tides /\
    List.length tides = List.length dates /\
    forall i d, nth_error dates i = Some d ->
      exists v, nth_error tides i = Some v /\ SDS_tools.tideLevel series d = Some v.
Proof.
  intros Hne. induction dates as [|d dates IH].
  - exists []. simpl. repeat split; auto. intros [|i] d H; discriminate.
  - destruct IH as (tides & Hrun & Hlen & Hnth).
    destruct (tideLevel_spec series d Hne) as (t & v & Hv & _).
    exists (v :: tides). simpl. rewrite Hv, Hrun.
    split; [reflexivity|]. split; [now rewrite Hlen|].
    intros [|i] d' H; simpl in *.
    + injection H as <-. now exists v.
    + now apply Hnth.
Qed.

(** ** The intersection engine *)

Section EngineFacts.

Variable clusters : float -> float -> list float -> list (list float).

Lemma landward_rejection_nan (s : settings_t) :
  SDS_transects.landward_rejection s F64.nan = F64.nan.
Proof. reflexivity. Qed.

Lemma analyse_too_few (s : settings_t) (t : Transect) (points : list point) :
  List.length (SDS_transects.pointsWithinAlongshoreBand t points (along_dist s))
    < min_points s ->
  SDS_transects.analyse clusters s t points = SDS_transects.TooFewPoints.
Proof.
  intros H. unfold SDS_transects.analyse.
  apply Nat.ltb_lt in H. now rewrite H.
Qed.

(** The analysis of a date does not look at the policy. *)
Lemma analyse_with_multiple_inter (s : settings_t) (m : multiple_inter_t)
    (t : Transect) (points : list point) :
  SDS_transects.analyse clusters (with_multiple_inter s m) t points =
  SDS_transects.analyse clusters s t points.
Proof. reflexivity. Qed.

Lemma transect_series_length (s : settings_t) (t : Transect)
    (shorelines : list (list point)) :
  List.length (SDS_transects.transect_series clusters s t shorelines) =
  List.length shorelines.
Proof. unfold SDS_transects.transect_series. now rewrite !length_map. Qed.

(** Under a fixed policy the two passes collapse into one value per date. *)
Lemma transect_series_fixed (s : settings_t) (m : multiple_inter_t) (t : Transect)
    (shorelines : list (list point)) :
  m <> inter_auto ->
  SDS_transects.transect_series clusters (with_multiple_inter s m) t shorelines =
  map (SDS_transects.intersect clusters s
         (match m with inter_max => SDS_transects.UseMax | _ => SDS_transects.UseNan end) t)
      shorelines.
Proof.
  intros Hm. unfold SDS_transects.transect_series, SDS_transects.decide.
  rewrite map_map. apply map_ext. intros points.
  unfold SDS_transects.intersect. rewrite analyse_with_multiple_inter.
  destruct m; [contradiction| |]; reflexivity.
Qed.

Lemma transect_series_auto (s : settings_t) (t : Transect)
    (shorelines : list (list point)) :
  multiple_inter s = inter_auto ->
  SDS_transects.transect_series clusters s t shorelines =
  map (SDS_transects.intersect clusters s
         (if F64.ltb (prc_multiple s)
               (SDS_transects.fraction_multiple
                  (map (SDS_transects.analyse clusters s t) shorelines))
          then SDS_transects.UseMax else SDS_transects.UseNan) t)
      shorelines.
Proof.
  intros Hm. unfold SDS_transects.transect_series, SDS_transects.decide.
  rewrite Hm, map_map. reflexivity.
Qed.

Lemma filter_map_length {A B} (p : B -> bool) (f : A -> B) (xs : list A) :
  List.length (filter p (map f xs)) = List.length (filter (fun x => p (f x)) xs).
Proof.
  induction xs as [|x xs IH]; simpl; [reflexivity|].
  destruct (p (f x)); simpl; now rewrite IH.
Qed.

Lemma fraction_multiple_dates (s : settings_t) (t : Transect)
    (shorelines : list (list point)) :
  SDS_transects.fraction_multiple (map (SDS_transects.analyse clusters s t) shorelines) =
  F64.div
    (F64.of_nat (List.length (SDS_transects.dates_with_multiple clusters s t shorelines)))
    (F64.of_nat (List.length shorelines)).
Proof.
  unfold SDS_transects.fraction_multiple, SDS_transects.dates_with_multiple.
  now rewrite filter_map_length, length_map.
Qed.

Lemma intersect_transect_loop (s : settings_t) (transects : dict Transect)
    (shorelines : list (list point)) (keys : list string) :
  (forall k, In k keys -> In k (dict_keys transects)) ->
  forall (acc : pydict) (h : heap),
  exists acc' ext,
    for_each keys (SDS_transects.intersect_transect clusters s transects shorelines)
      acc h = Some (acc', h ++ ext) /\
    (forall k, ~ In k keys -> dict_get k acc' = dict_get k acc) /\
    (forall k t, In k keys -> dict_get k transects = Some t ->
       exists l, dict_get k acc' = Some l /\
                 nth_error (h ++ ext) l =
                 Some (SDS_transects.transect_series clusters s t shorelines)).
Proof.
  induction keys as [|k keys IH]; intros Hkeys acc h.
  - exists acc, []. simpl. rewrite app_nil_r. repeat split; auto.
    intros k t [].
  - destruct (dict_keys_get k transects) as [t Ht]; [apply Hkeys; now left|].
    set (series := SDS_transects.transect_series clusters s t shorelines).
    destruct (IH (fun k0 H => Hkeys k0 (or_intror H))
                (dict_setitem acc k (List.length h)) (h ++ [series]))
      as (acc' & ext & Hrun & Hout & Hin).
    exists acc', ([series] ++ ext). split; [|split].
    + assert (Hstep : SDS_transects.intersect_transect clusters s transects
                        shorelines k acc h =
                      Some (dict_setitem acc k (List.length h), h ++ [series])).
      { unfold SDS_transects.intersect_transect, dict_getitem, bind.
        rewrite Ht. reflexivity. }
      simpl. unfold bind. rewrite Hstep, Hrun. now rewrite <- app_assoc.
    + intros k0 Hk0. rewrite Hout by (intros H; apply Hk0; now right).
      apply dict_get_setitem_neq. intros ->. apply Hk0. now left.
    + intros k0 t0 Hk0 Ht0.
      destruct (in_dec string_dec k0 keys) as [Hin0|Hin0].
      * destruct (Hin k0 t0 Hin0 Ht0) as (l & Hl & Hnth).
        exists l. split; [exact Hl|]. now rewrite <- app_assoc in Hnth.
      * destruct Hk0 as [<-|Hk0]; [|contradiction].
        exists (List.length h). rewrite (Hout k Hin0), dict_get_setitem_eq.
        split; [reflexivity|].
        rewrite app_assoc. apply nth_error_grow.
        assert (t0 = t) as -> by congruence. apply nth_error_last.
Qed.

(** The engine on well-formed transects and at least one shoreline: it
    returns one series per transect, computed by [transect_series]. *)
Lemma compute_intersection_QC_run (output : output_t) (transects : dict Transect)
    (s : settings_t) (h : heap) :
  forallb (fun kt => SDS_transects.well_formed (snd kt)) transects = true ->
  output_shorelines output <> [] ->
  transects <> [] ->
  exists cross_distance ext,
    SDS_transects.compute_intersection_QC clusters output transects s h
      = Some (Some cross_distance, h ++ ext) /\
    (forall k t, dict_get k transects = Some t ->
       series_at (h ++ ext) cross_distance k =
       Some (SDS_transects.transect_series clusters s t (output_shorelines output))) /\
    (forall k, dict_get k transects = None -> dict_get k cross_distance = None).
Proof.
  intros Hwf Hsl Htr.
  destruct (intersect_transect_loop s transects (output_shorelines output)
              (dict_keys transects) (fun k H => H) [] h)
    as (cd & ext & Hrun & Hout & Hin).
  exists cd, ext. split; [|split].
  - unfold SDS_transects.compute_intersection_QC. rewrite Hwf.
    destruct (output_shorelines output) as [|sl sls]; [contradiction|].
    destruct transects as [|kt transects']; [contradiction|].
    unfold bind. rewrite Hrun. reflexivity.
  - intros k t Ht.
    destruct (Hin k t (dict_get_keys _ _ _ Ht) Ht) as (l & Hl & Hnth).
    unfold series_at. now rewrite Hl.
  - intros k Hk. rewrite Hout; [reflexivity|]. now apply dict_get_none_keys.
Qed.

End EngineFacts.

(** ** The tidal-correction loop without the alignment assumption *)

Lemma broadcast_add_some_iff (x y : ndarray) :
  (exists z, np.broadcast_add x y = Some z) <->
  (List.length x = List.length y \/ List.length x = 1 \/ List.length y = 1).
Proof.
  unfold np.broadcast_add.
  destruct (Nat.eqb_spec (List.length x) (List.length y)) as [Heq|Hne].
  - split; [intros _; now left|intros _; eauto].
  - destruct x as [|u [|u' x']]; destruct y as [|v [|v' y']]; simpl in *;
      split; intros H; eauto; try lia;
      try (destruct H as (z & H); discriminate).
Qed.

Lemma broadcast_add_single_r (x : ndarray) (v : float) :
  np.broadcast_add x [v] = Some (map (fun u => F64.add u v) x).
Proof. destruct x as [|u [|u' x']]; reflexivity. Qed.


Lemma add_run_broadcast (a b : loc) (h : heap) (x y z : ndarray) :
  nth_error h a = Some x -> nth_error h b = Some y ->
  np.broadcast_add x y = Some z ->
  np.add a b h = Some (List.length h, h ++ [z]).
Proof.
  intros Ha Hb Hz. unfold np.add, bind, deref. now rewrite Ha, Hb, Hz.
Qed.

Lemma dict_keys_setitem_new {V} (d : dict V) (k : string) (v : V) :
  ~ In k (dict_keys d) -> dict_keys (dict_setitem d k v) = dict_keys d ++ [k].
Proof.
  induction d as [|[k0 v0] d IH]; simpl; intros Hk; [reflexivity|].
  destruct (String.eqb_spec k k0) as [->|Hne].
  - exfalso. apply Hk. now left.
  - simpl. rewrite IH; [reflexivity|]. intros H. apply Hk. now right.
Qed.

Section TidalLoopGeneral.

Variable elevation slope : float.
Variable cross_distance : pydict.
Variable tides_sat : loc.

(** The three arrays that a successful iteration allocates. *)
Lemma correct_transect_inv (key : string) (acc acc1 : pydict) (h h1 : heap) :
  correct_transect elevation slope cross_distance tides_sat key acc h
    = Some (acc1, h1) ->
  exists tides l raw z,
    nth_error h tides_sat = Some tides /\
    dict_get key cross_distance = Some l /\
    nth_error (h ++ [map (fun v => F64.sub v elevation) tides;
                     correction_of elevation slope tides]) l = Some raw /\
    np.broadcast_add raw (correction_of elevation slope tides) = Some z /\
    acc1 = dict_setitem acc key (S (S (List.length h))) /\
    h1 = h ++ [map (fun v => F64.sub v elevation) tides;
               correction_of elevation slope tides; z].
Proof.
  unfold correct_transect, bind. intros H.
  destruct (nth_error h tides_sat) as [tides|] eqn:Ht.
  2:{ unfold np.sub_scalar, bind, deref in H. rewrite Ht in H. discriminate. }
  rewrite (sub_scalar_run _ _ _ _ Ht) in H.
  rewrite (div_scalar_run _ _ _ _ (nth_error_last h _)) in H.
  unfold dict_getitem, raise in H.
  destruct (dict_get key cross_distance) as [l|] eqn:Hl; [|discriminate].
  unfold ret at 1 in H.
  fold (correction_of elevation slope tides) in H.
  unfold np.add, bind, deref, raise in H.
  match type of H with
  | context [match nth_error ?hh l with _ => _ end] =>
      destruct (nth_error hh l) as [raw|] eqn:Hraw; [|discriminate]
  end.
  rewrite nth_error_last in H.
  destruct (np.broadcast_add raw (correction_of elevation slope tides))
    as [z|] eqn:Hz; [|discriminate].
  unfold alloc, ret in H. injection H as <- <-.
  exists tides, l, raw, z.
  split; [reflexivity|]. split; [reflexivity|]. split.
  { now rewrite <- app_assoc in Hraw. }
  split; [exact Hz|]. split.
  - rewrite !length_app. simpl. f_equal. lia.
  - now rewrite <- !app_assoc.
Qed.

Lemma correct_transect_run (key : string) (acc : pydict) (h : heap)
    (tides raw z : ndarray) (l : loc) :
  nth_error h tides_sat = Some tides ->
  dict_get key cross_distance = Some l ->
  nth_error h l = Some raw ->
  np.broadcast_add raw (correction_of elevation slope tides) = Some z ->
  correct_transect elevation slope cross_distance tides_sat key acc h =
  Some (dict_setitem acc key (S (S (List.length h))),
        h ++ [map (fun v => F64.sub v elevation) tides;
              correction_of elevation slope tides; z]).
Proof.
  intros Ht Hk Hl Hz.
  unfold correct_transect, bind.
  rewrite (sub_scalar_run _ _ _ _ Ht).
  rewrite (div_scalar_run _ _ _ _ (nth_error_last h _)).
  unfold dict_getitem. rewrite Hk. unfold ret at 1.
  erewrite add_run_broadcast.
  - unfold ret. rewrite !length_app. simpl.
    rewrite <- !app_assoc. simpl.
    replace (List.length h + 1 + 1) with (S (S (List.length h))) by lia.
    reflexivity.
  - rewrite <- app_assoc. apply nth_error_grow. exact Hl.
  - apply nth_error_last.
  - exact Hz.
Qed.

(** Whenever the loop returns, the store has only grown. *)
Lemma tidal_loop_grows (keys : list string) :
  forall acc h acc' h',
    for_each keys (correct_transect elevation slope cross_distance tides_sat) acc h
      = Some (acc', h') ->
    exists ext, h' = h ++ ext.
Proof.
  induction keys as [|k keys IH]; intros acc h acc' h' H; simpl in H.
  - injection H as <- <-. exists []. now rewrite app_nil_r.
  - unfold bind in H.
    destruct (correct_transect elevation slope cross_distance tides_sat k acc h)
      as [[acc1 h1]|] eqn:E; [|discriminate].
    apply correct_transect_inv in E
      as (tides & l & raw & z & _ & _ & _ & _ & _ & ->).
    destruct (IH _ _ _ _ H) as (ext & ->).
    exists ([map (fun v => F64.sub v elevation) tides;
             correction_of elevation slope tides; z] ++ ext).
    now rewrite <- app_assoc.
Qed.

(** Whenever the loop returns, each key it visited was read and added with
    success at some later state of the store. *)
Lemma tidal_loop_visits (keys : list string) :
  forall acc h acc' h',
    for_each keys (correct_transect elevation slope cross_distance tides_sat) acc h
      = Some (acc', h') ->
    forall k, In k keys ->
      exists ext tides l raw z,
        nth_error (h ++ ext) tides_sat = Some tides /\
        dict_get k cross_distance = Some l /\
        nth_error ((h ++ ext) ++ [map (fun v => F64.sub v elevation) tides;
                                  correction_of elevation slope tides]) l
          = Some raw /\
        np.broadcast_add raw (correction_of elevation slope tides) = Some z.
Proof.
  induction keys as [|k0 keys IH]; intros acc h acc' h' H k Hk; [destruct Hk|].
  simpl in H. unfold bind in H.
  destruct (correct_transect elevation slope cross_distance tides_sat k0 acc h)
    as [[acc1 h1]|] eqn:E; [|discriminate].
  apply correct_transect_inv in E
    as (tides & l & raw & z & Ht & Hl & Hraw & Hz & -> & ->).
  destruct Hk as [<-|Hk].
  - exists [], tides, l, raw, z. rewrite app_nil_r.
    repeat split; assumption.
  - destruct (IH _ _ _ _ H k Hk) as (ext & tides' & l' & raw' & z' & H1 & H2 & H3 & H4).
    exists ([map (fun v => F64.sub v elevation) tides;
             correction_of elevation slope tides; z] ++ ext), tides', l', raw', z'.
    rewrite app_assoc. repeat split; assumption.
Qed.

(** Names are appended in the order of the visit. *)
Lemma tidal_loop_keys (keys : list string) :
  NoDup keys ->
  forall acc h acc' h',
    (forall k, In k keys -> ~ In k (dict_keys acc)) ->
    for_each keys (correct_transect elevation slope cross_distance tides_sat) acc h
      = Some (acc', h') ->
    dict_keys acc' = dict_keys acc ++ keys.
Proof.
  induction 1 as [|k keys Hk Hnd IH]; intros acc h acc' h' Hnew H; simpl in H.
  - injection H as <- _. now rewrite app_nil_r.
  - unfold bind in H.
    destruct (correct_transect elevation slope cross_distance tides_sat k acc h)
      as [[acc1 h1]|] eqn:E; [|discriminate].
    apply correct_transect_inv in E
      as (tides & l & raw & z & _ & _ & _ & _ & -> & ->).
    assert (Hk1 : dict_keys (dict_setitem acc k (S (S (List.length h))))
                  = dict_keys acc ++ [k]).
    { apply dict_keys_setitem_new. apply Hnew. now left. }
    assert (Hnew1 : forall k0, In k0 keys ->
              ~ In k0 (dict_keys (dict_setitem acc k (S (S (List.length h)))))).
    { intros k0 Hk0. rewrite Hk1. intros Hin.
      apply in_app_or in Hin as [Hin|[<-|[]]].
      - exact (Hnew k0 (or_intror Hk0) Hin).
      - exact (Hk Hk0). }
    rewrite (IH _ _ _ _ Hnew1 H), Hk1, <- app_assoc. reflexivity.
Qed.

Lemma tidal_loop_separate (keys : list string) :
  forall acc h acc' h',
    separate acc h ->
    for_each keys (correct_transect elevation slope cross_distance tides_sat) acc h
      = Some (acc', h') ->
    separate acc' h' /\
    (forall k l, dict_get k acc' = Some l ->
       dict_get k acc = Some l \/ List.length h <= l).
Proof.
  induction keys as [|k keys IH]; intros acc h acc' h' Hsep H; simpl in H.
  - injection H as <- <-. split; [exact Hsep|]. intros k l Hl. now left.
  - unfold bind in H.
    destruct (correct_transect elevation slope cross_distance tides_sat k acc h)
      as [[acc1 h1]|] eqn:E; [|discriminate].
    apply correct_transect_inv in E
      as (tides & l0 & raw & z & _ & _ & _ & _ & -> & ->).
    destruct Hsep as (Hlt & Hinj).
    assert (Hsep1 : separate (dict_setitem acc k (S (S (List.length h))))
                      (h ++ [map (fun v => F64.sub v elevation) tides;
                             correction_of elevation slope tides; z])).
    { split.
      - intros k1 l Hl. rewrite length_app. simpl.
        destruct (string_dec k1 k) as [->|Hne].
        + rewrite dict_get_setitem_eq in Hl. injection Hl as <-. lia.
        + rewrite dict_get_setitem_neq in Hl by exact Hne.
          specialize (Hlt _ _ Hl). lia.
      - intros k1 k2 l Hne H1 H2.
        destruct (string_dec k1 k) as [->|Hne1];
          destruct (string_dec k2 k) as [->|Hne2]; try contradiction.
        + rewrite dict_get_setitem_eq in H1. injection H1 as <-.
          rewrite dict_get_setitem_neq in H2 by exact Hne2.
          specialize (Hlt _ _ H2). lia.
        + rewrite dict_get_setitem_eq in H2. injection H2 as <-.
          rewrite dict_get_setitem_neq in H1 by exact Hne1.
          specialize (Hlt _ _ H1). lia.
        + rewrite dict_get_setitem_neq in H1 by exact Hne1.
          rewrite dict_get_setitem_neq in H2 by exact Hne2.
          exact (Hinj k1 k2 l Hne H1 H2). }
    destruct (IH _ _ _ _ Hsep1 H) as (Hsep' & Hfresh).
    split; [exact Hsep'|].
    intros k1 l Hl. destruct (Hfresh k1 l Hl) as [Hold|Hnew].
    + destruct (string_dec k1 k) as [->|Hne].
      * rewrite dict_get_setitem_eq in Hold. injection Hold as <-. right. lia.
      * rewrite dict_get_setitem_neq in Hold by exact Hne. now left.
    + right. rewrite length_app in Hnew. lia.
Qed.

End TidalLoopGeneral.

Section TidalLoopBroadcast.

Variable elevation slope : float.
Variable cross_distance : pydict.
Variable tides_sat : loc.
Variable h0 : heap.
Variable tides : ndarray.

Hypothesis tides_allocated : nth_error h0 tides_sat = Some tides.
Hypothesis series_compatible :
  forall k l, dict_get k cross_distance = Some l ->
    exists raw z,
      nth_error h0 l = Some raw /\
      np.broadcast_add raw (correction_of elevation slope tides) = Some z.

Lemma tidal_loop_broadcast (keys : list string) :
  (forall k, In k keys -> In k (dict_keys cross_distance)) ->
  forall (acc : pydict) (ext : list ndarray),
  exists (acc' : pydict) (ext' : list ndarray),
    for_each keys (correct_transect elevation slope cross_distance tides_sat) acc
      (h0 ++ ext) = Some (acc', h0 ++ ext ++ ext') /\
    (forall k, ~ In k keys -> dict_get k acc' = dict_get k acc) /\
    (forall k raw, In k keys -> series_at h0 cross_distance k = Some raw ->
       exists l', dict_get k acc' = Some l' /\
                  nth_error (h0 ++ ext ++ ext') l' =
                  np.broadcast_add raw (correction_of elevation slope tides)).
Proof.
  induction keys as [|k keys IH]; intros Hkeys acc ext.
  - exists acc, []. simpl. rewrite app_nil_r. repeat split; auto.
    intros k raw [].
  - destruct (dict_keys_get k cross_distance) as [l Hl]; [apply Hkeys; now left|].
    destruct (series_compatible k l Hl) as (raw & z & Hraw & Hz).
    set (new := [map (fun v => F64.sub v elevation) tides;
                 correction_of elevation slope tides; z]).
    set (l1 := S (S (List.length (h0 ++ ext)))).
    destruct (IH (fun k0 H => Hkeys k0 (or_intror H)) (dict_setitem acc k l1)
                (ext ++ new)) as (acc' & ext' & Hrun & Hout & Hin).
    exists acc', (new ++ ext').
    assert (Hstep : correct_transect elevation slope cross_distance tides_sat k acc
                      (h0 ++ ext) = Some (dict_setitem acc k l1, h0 ++ ext ++ new)).
    { rewrite app_assoc. apply correct_transect_run with (l := l) (raw := raw); auto.
      - apply nth_error_grow. exact tides_allocated.
      - apply nth_error_grow. exact Hraw. }
    split; [|split].
    + simpl. unfold bind. rewrite Hstep. rewrite Hrun.
      now rewrite <- !app_assoc.
    + intros k0 Hk0. rewrite Hout by (intros H; apply Hk0; now right).
      apply dict_get_setitem_neq. intros ->. apply Hk0. now left.
    + intros k0 raw0 Hk0 Hraw0.
      destruct (in_dec string_dec k0 keys) as [Hks0|Hks0].
      * destruct (Hin k0 raw0 Hks0 Hraw0) as (l' & H1 & H2).
        exists l'. split; [exact H1|]. now rewrite <- app_assoc in H2.
      * destruct Hk0 as [<-|Hk0]; [|contradiction].
        exists l1. rewrite (Hout k Hks0), dict_get_setitem_eq.
        unfold series_at in Hraw0. rewrite Hl, Hraw in Hraw0.
        injection Hraw0 as <-.
        split; [reflexivity|]. rewrite Hz.
        replace (h0 ++ ext ++ new ++ ext')
          with (((h0 ++ ext) ++
                 [map (fun v => F64.sub v elevation) tides;
                  correction_of elevation slope tides]) ++ [z] ++ ext').
        2:{ unfold new. rewrite <- !app_assoc. reflexivity. }
        unfold l1. generalize (h0 ++ ext). intros h.
        rewrite nth_error_app2; rewrite length_app; cbn [List.length]; [|lia].
        replace (S (S (List.length h)) - (List.length h + 2)) with 0 by lia.
        reflexivity.
Qed.

(** The cell returns and stores, for every name, the broadcast sum of its raw
    series and the correction. *)
Lemma tidal_correction_broadcast :
  exists (corrected : pydict) (ext : list ndarray),
    cross_distance_tidally_corrected elevation slope cross_distance tides_sat h0
      = Some (corrected, h0 ++ ext) /\
    forall k raw, series_at h0 cross_distance k = Some raw ->
      series_at (h0 ++ ext) corrected k =
      np.broadcast_add raw (correction_of elevation slope tides).
Proof.
  destruct (tidal_loop_broadcast (dict_keys cross_distance)
              (fun k H => H) [] []) as (acc' & ext' & Hrun & _ & Hin).
  exists acc', ext'. rewrite app_nil_r in Hrun. simpl in *.
  split; [exact Hrun|].
  intros k raw Hk.
  assert (Hkeys : In k (dict_keys cross_distance)).
  { unfold series_at in Hk. destruct (dict_get k cross_distance) eqn:E;
      [|discriminate]. eapply dict_get_keys; eauto. }
  destruct (Hin k raw Hkeys Hk) as (l' & Hl' & Hnth).
  unfold series_at. now rewrite Hl'.
Qed.

End TidalLoopBroadcast.

(** ** The export cells without the alignment assumption *)

Lemma fill_out_dict_missing (series : pydict) (h : heap) (keys : list string)
    (k : string) :
  In k keys -> dict_get k series = None ->
  forall out0, fill_out_dict keys series out0 h = None.
Proof.
  unfold fill_out_dict.
  induction keys as [|k0 keys IH]; intros Hk Hnone out0; [destruct Hk|].
  simpl. unfold bind at 1. unfold dict_getitem, bind.
  destruct (dict_get k0 series) as [l|] eqn:E.
  - unfold ret at 1 2. apply IH; [|exact Hnone].
    destruct Hk as [->|Hk]; [congruence|exact Hk].
  - reflexivity.
Qed.

Lemma fill_out_dict_inv (series : pydict) (h : heap) (keys : list string) :
  forall out0 out h',
    fill_out_dict keys series out0 h = Some (out, h') ->
    h' = h /\
    (forall k, In k keys ->
       exists l, dict_get k series = Some l /\ dict_get k out = Some (ArrayRef l)) /\
    (forall k, ~ In k keys -> dict_get k out = dict_get k out0) /\
    (forall k v, In (k, v) out ->
       In (k, v) out0 \/
       (In k keys /\ exists l, dict_get k series = Some l /\ v = ArrayRef l)).
Proof.
  unfold fill_out_dict.
  induction keys as [|k0 keys IH]; intros out0 out h' H; simpl in H.
  - injection H as <- <-. repeat split; auto. intros k [].
  - unfold bind at 1 in H. unfold dict_getitem, bind, raise in H.
    destruct (dict_get k0 series) as [l|] eqn:E; [|discriminate].
    unfold ret at 1 2 in H.
    destruct (IH _ _ _ H) as (-> & Hin & Hout & Hall).
    split; [reflexivity|]. split; [|split].
    + intros k Hk.
      destruct (in_dec string_dec k keys) as [Hin0|Hin0]; [now apply Hin|].
      destruct Hk as [<-|Hk]; [|contradiction].
      exists l. split; [exact E|].
      rewrite (Hout k0 Hin0). apply dict_get_setitem_eq.
    + intros k Hk. rewrite Hout by (intros Hc; apply Hk; now right).
      apply dict_get_setitem_neq. intros ->. apply Hk. now left.
    + intros k v Hv. destruct (Hall k v Hv) as [Hold|(Hk & l' & Hl' & ->)].
      * destruct (In_dict_setitem _ _ _ _ _ Hold) as [H'|[-> ->]]; [now left|].
        right. split; [now left|]. now exists l.
      * right. split; [now right|]. now exists l'.
Qed.

(** Names are added to [out_dict] in the order of the visit. *)
Lemma fill_out_dict_keys (series : pydict) (h : heap) (keys : list string) :
  NoDup keys ->
  forall out0 out h',
    (forall k, In k keys -> ~ In k (dict_keys out0)) ->
    fill_out_dict keys series out0 h = Some (out, h') ->
    dict_keys out = dict_keys out0 ++ keys.
Proof.
  unfold fill_out_dict.
  induction 1 as [|k keys Hk Hnd IH]; intros out0 out h' Hnew H; simpl in H.
  - injection H as <- _. now rewrite app_nil_r.
  - unfold bind at 1 in H. unfold dict_getitem, bind, raise in H.
    destruct (dict_get k series) as [l|] eqn:E; [|discriminate].
    unfold ret at 1 2 in H.
    assert (Hk1 : dict_keys (dict_setitem out0 k (ArrayRef l)) = dict_keys out0 ++ [k]).
    { apply dict_keys_setitem_new. apply Hnew. now left. }
    assert (Hnew1 : forall k0, In k0 keys ->
              ~ In k0 (dict_keys (dict_setitem out0 k (ArrayRef l)))).
    { intros k0 Hk0. rewrite Hk1. intros Hin.
      apply in_app_or in Hin as [Hin|[<-|[]]].
      - exact (Hnew k0 (or_intror Hk0) Hin).
      - exact (Hk Hk0). }
    rewrite (IH _ _ _ Hnew1 H), Hk1, <- app_assoc. reflexivity.
Qed.

Lemma load_columns_inv (h : heap) (d : dict pyvalue) :
  forall cols h',
    pd.load_columns d h = Some (cols, h') ->
    h' = h /\
    dict_keys cols = dict_keys d /\
    (forall k, dict_get k cols =
               match dict_get k d with
               | Some v => column_of h v
               | None => None
               end) /\
    (forall k c, In (k, c) cols -> exists v, In (k, v) d /\ column_of h v = Some c).
Proof.
  induction d as [|[k v] d IH]; intros cols h' H; simpl in H.
  - injection H as <- <-. repeat split; auto. intros k c [].
  - unfold bind in H.
    destruct (pd.load_column v h) as [[c h1]|] eqn:Ec; [|discriminate].
    assert (Hc : h1 = h /\ column_of h v = Some c).
    { destruct v as [ds|l]; simpl in Ec.
      - injection Ec as <- <-. now split.
      - unfold bind, deref, ret in Ec.
        destruct (nth_error h l) as [a|] eqn:Ea; [|discriminate].
        injection Ec as <- <-. simpl. now rewrite Ea. }
    destruct Hc as (-> & Hcol).
    destruct (pd.load_columns d h) as [[cs h2]|] eqn:Ecs; [|discriminate].
    destruct (IH _ _ eq_refl) as (-> & Hkeys & Hget & Hall).
    unfold ret in H. injection H as <- <-.
    split; [reflexivity|]. split; [|split].
    + simpl. now rewrite Hkeys.
    + intros k0. simpl. destruct (String.eqb k0 k); [now rewrite Hcol|apply Hget].
    + intros k0 c0 [[= <- <-]|Hin].
      * exists v. split; [now left|exact Hcol].
      * destruct (Hall k0 c0 Hin) as (v0 & Hv0 & Hc0).
        exists v0. split; [now right|exact Hc0].
Qed.

(** A data frame, once built, has columns of one length: that of its index. *)
Lemma DataFrame_inv (h : heap) (d : dict pyvalue) (df : pd.frame) (h' : heap) :
  pd.DataFrame d h = Some (df, h') ->
  h' = h /\
  pd.load_columns d h = Some (pd.columns df, h) /\
  (forall k c, In (k, c) (pd.columns df) ->
     pd.column_length c = List.length (pd.index df)) /\
  pd.index df = seq 0 (List.length (pd.index df)).
Proof.
  unfold pd.DataFrame, bind. intros H.
  destruct (pd.load_columns d h) as [[cols h1]|] eqn:E; [|discriminate].
  destruct (load_columns_inv h d _ _ E) as (-> & _).
  destruct cols as [|[k0 c0] cols'].
  - unfold ret in H. injection H as <- <-. simpl.
    repeat split; auto. intros k c [].
  - destruct (forallb _ _) eqn:Hall in H; [|discriminate].
    unfold ret in H. injection H as <- <-. simpl.
    rewrite length_seq. repeat split; auto.
    intros k c Hin. rewrite forallb_forall in Hall.
    specialize (Hall (k, c) Hin). simpl in Hall. now apply Nat.eqb_eq in Hall.
Qed.

Lemma dict_setitem_keys_NoDup {V} (d : dict V) (k : string) (v : V) :
  NoDup (dict_keys d) -> NoDup (dict_keys (dict_setitem d k v)).
Proof.
  intros Hnd. destruct (in_dec string_dec k (dict_keys d)) as [Hin|Hout].
  - replace (dict_keys (dict_setitem d k v)) with (dict_keys d); [exact Hnd|].
    clear Hnd. induction d as [|[k0 v0] d IH]; simpl in *; [destruct Hin|].
    destruct (String.eqb_spec k k0) as [->|Hne]; [reflexivity|].
    simpl. f_equal. apply IH. destruct Hin as [Heq|Hin]; [congruence|exact Hin].
  - rewrite (dict_keys_setitem_new d k v Hout).
    apply NoDup_app.
    + exact Hnd.
    + apply NoDup_cons; [intros []|apply NoDup_nil].
    + intros x Hx [<-|[]]. exact (Hout Hx).
Qed.

Lemma NoDup_keys_In_get {V} (d : dict V) (k : string) (v : V) :
  NoDup (dict_keys d) -> In (k, v) d -> dict_get k d = Some v.
Proof.
  induction d as [|[k0 v0] d IH]; simpl; intros Hnd Hin; [destruct Hin|].
  inversion Hnd as [|? ? Hk0 Hnd']; subst.
  destruct Hin as [[= -> ->]|Hin].
  - now rewrite String.eqb_refl.
  - destruct (String.eqb_spec k k0) as [->|Hne]; [|now apply IH].
    exfalso. apply Hk0. unfold dict_keys. change k0 with (fst (k0, v)).
    now apply in_map.
Qed.

Lemma fill_out_dict_NoDup (series : pydict) (h : heap) (keys : list string) :
  forall out0 out h',
    NoDup (dict_keys out0) ->
    fill_out_dict keys series out0 h = Some (out, h') ->
    NoDup (dict_keys out).
Proof.
  unfold fill_out_dict.
  induction keys as [|k keys IH]; intros out0 out h' Hnd H; simpl in H.
  - now injection H as <- _.
  - unfold bind at 1 in H. unfold dict_getitem, bind, raise in H.
    destruct (dict_get k series) as [l|]; [|discriminate].
    unfold ret at 1 2 in H.
    apply (IH _ _ _ (dict_setitem_keys_NoDup out0 k (ArrayRef l) Hnd) H).
Qed.

Lemma export_inv (dates : list datetime) (keys : list string) (series : pydict)
    (h h' : heap) (df : pd.frame) :
  export dates keys series h = Some (df, h') ->
  h' = h /\
  pd.index df = seq 0 (List.length (pd.index df)) /\
  (forall k, In k keys ->
     exists a, series_at h series k = Some a /\
               dict_get k (pd.columns df) = Some (pd.FloatColumn a) /\
               List.length a = List.length (pd.index df)) /\
  (~ In "dates"%string keys ->
     dict_get "dates" (pd.columns df) = Some (pd.DateColumn dates) /\
     List.length (pd.index df) = List.length dates) /\
  (forall k, ~ In k keys -> k <> "dates"%string ->
     dict_get k (pd.columns df) = None) /\
  (NoDup keys -> ~ In "dates"%string keys ->
     dict_keys (pd.columns df) = "dates"%string :: keys) /\
  (In "dates"%string keys ->
     forall k c, In (k, c) (pd.columns df) -> exists a, c = pd.FloatColumn a).
Proof.
  unfold export, bind. intros H.
  destruct (fill_out_dict keys series _ h) as [[out h1]|] eqn:Efill; [|discriminate].
  assert (Hnd : NoDup (dict_keys out)).
  { apply (fill_out_dict_NoDup series h keys _ _ _) with (2 := Efill).
    simpl. apply NoDup_cons; [intros []|apply NoDup_nil]. }
  pose proof (fill_out_dict_keys series h keys) as Hkeys.
  destruct (fill_out_dict_inv series h keys _ _ _ Efill) as (-> & Hin & Hout & Hall).
  destruct (DataFrame_inv h out df h' H) as (-> & Hload & Hlen & Hidx).
  destruct (load_columns_inv h out _ _ Hload) as (_ & Hck & Hget & Hback).
  assert (Hsome : forall k v, dict_get k out = Some v ->
            exists c, column_of h v = Some c /\ dict_get k (pd.columns df) = Some c /\
                      pd.column_length c = List.length (pd.index df)).
  { intros k v Hv.
    destruct (dict_keys_get k (pd.columns df)) as (c & Hc).
    { rewrite Hck. eapply dict_get_keys; eauto. }
    exists c. split; [|split; [exact Hc|]].
    - rewrite Hget, Hv in Hc. exact Hc.
    - apply (Hlen k). now apply dict_get_In. }
  split; [reflexivity|]. split; [exact Hidx|].
  split; [|split; [|split; [|split]]].
  - intros k Hk. destruct (Hin k Hk) as (l & Hl & Hol).
    destruct (Hsome k _ Hol) as (c & Hcol & Hc & Hn).
    simpl in Hcol. destruct (nth_error h l) as [a|] eqn:Ea; [|discriminate].
    injection Hcol as <-. exists a. unfold series_at. rewrite Hl.
    repeat split; assumption.
  - intros Hd. specialize (Hout _ Hd). simpl in Hout.
    destruct (Hsome _ _ Hout) as (c & Hcol & Hc & Hn).
    injection Hcol as <-. split; [exact Hc|]. simpl in Hn. now rewrite Hn.
  - intros k Hk Hne. rewrite Hget, (Hout k Hk). simpl.
    destruct (String.eqb_spec k "dates"); [contradiction|reflexivity].
  - intros Hnk Hd. rewrite Hck.
    apply (Hkeys Hnk) with (2 := Efill).
    intros k Hk. simpl. intros [<-|[]]. exact (Hd Hk).
  - intros Hd k c Hc. destruct (Hback k c Hc) as (v & Hv & Hcol).
    destruct (Hall k v Hv) as [Hold|(_ & l & _ & ->)].
    + simpl in Hold. destruct Hold as [[= <- <-]|[]].
      destruct (Hin _ Hd) as (l & _ & Hol).
      rewrite (NoDup_keys_In_get out _ _ Hnd Hv) in Hol. discriminate.
    + simpl in Hcol. destruct (nth_error h l) as [a|]; [|discriminate].
      injection Hcol as <-. now exists a.
Qed.

Lemma export_run (dates : list datetime) (keys : list string) (series : pydict)
    (h : heap) :
  (forall k, In k keys ->
     exists a, series_at h series k = Some a /\ List.length a = List.length dates) ->
  exists df, export dates keys series h = Some (df, h) /\
             pd.index df = seq 0 (List.length dates).
Proof.
  intros Hal.
  assert (Hkeys : forall k, In k keys -> In k (dict_keys series)).
  { intros k Hk. destruct (Hal k Hk) as (a & Ha & _). unfold series_at in Ha.
    destruct (dict_get k series) eqn:E; [|discriminate].
    eapply dict_get_keys; eauto. }
  destruct (fill_out_dict_run series h keys Hkeys
              (dict_setitem [] "dates" (DateList dates)))
    as (out & Hfill & _ & _ & _ & Hne).
  destruct (fill_out_dict_inv series h keys _ _ _ Hfill) as (_ & _ & _ & Hall).
  assert (Hload : forall k v, In (k, v) out -> loadable h (List.length dates) v).
  { intros k v Hv. destruct (Hall k v Hv) as [H|(Hk & l & Hl & ->)].
    - simpl in H. destruct H as [[= <- <-]|[]]. reflexivity.
    - simpl. destruct (Hal k Hk) as (a & Ha & Hn). unfold series_at in Ha.
      rewrite Hl in Ha. now exists a. }
  destruct (DataFrame_run h (List.length dates) out
              (Hne (dict_setitem_not_nil _ _ _)) Hload) as (cols & Hdf & _).
  eexists. unfold export, bind. rewrite Hfill, Hdf. split; reflexivity.
Qed.



(** ** The figure of the time series *)

Lemma In_combine_seq {A} (xs : list A) (start : nat) (i : nat) (x : A) :
  In (i, x) (combine (seq start (List.length xs)) xs) <->
  start <= i /\ nth_error xs (i - start) = Some x.
Proof.
  revert start. induction xs as [|y xs IH]; intros start; simpl.
  - split; [intros []|]. intros (_ & H). destruct (i - start); discriminate.
  - rewrite IH. split.
    + intros [[= <- <-]|(Hle & Hnth)].
      * split; [lia|]. now rewrite Nat.sub_diag.
      * split; [lia|]. replace (i - start) with (S (i - S start)) by lia. exact Hnth.
    + intros (Hle & Hnth). destruct (i - start) as [|n] eqn:E.
      * left. simpl in Hnth. injection Hnth as <-. f_equal. lia.
      * right. split; [lia|]. simpl in Hnth.
        replace (i - S start) with n by lia. exact Hnth.
Qed.

Lemma In_enumerate {A} (xs : list A) (i : nat) (x : A) :
  In (i, x) (enumerate xs) <-> nth_error xs i = Some x.
Proof.
  unfold enumerate. rewrite In_combine_seq, Nat.sub_0_r.
  split; [tauto|]. intros H. split; [lia|exact H].
Qed.

Lemma plot_transect_run (gs : gridspec.GridSpec_t) (dates : list datetime)
    (cross_distance : pydict) (i : nat) (k : string) (fig : list panel)
    (h : heap) (l : loc) (a : ndarray) :
  dict_get k cross_distance = Some l ->
  nth_error h l = Some a ->
  i < gridspec.nrows gs ->
  0 < gridspec.ncols gs ->
  plot_transect gs dates cross_distance (i, k) fig h =
  if nanfunctions.all_isnan a then Some (fig, h)
  else if List.length dates =? List.length a
  then Some (fig ++ [{| panel_row := i; panel_dates := dates;
                        panel_values :=
                          map (fun v => F64.sub v (nanfunctions.nanmedian a)) a;
                        panel_text := k |}],
             h ++ [map (fun v => F64.sub v (nanfunctions.nanmedian a)) a])
  else None.
Proof.
  intros Hk Ha Hi Hc. unfold plot_transect, bind, dict_getitem. simpl.
  rewrite Hk. unfold ret at 1. unfold deref at 1. rewrite Ha.
  destruct (nanfunctions.all_isnan a); [reflexivity|].
  unfold gridspec.getitem.
  apply Nat.ltb_lt in Hi. apply Nat.ltb_lt in Hc. rewrite Hi, Hc. simpl.
  unfold ret at 1.
  rewrite (sub_scalar_run _ _ _ _ Ha). unfold deref.
  rewrite nth_error_last. unfold axes.plot. rewrite length_map.
  destruct (List.length dates =? List.length a); reflexivity.
Qed.

Section Figure.

Variable gs : gridspec.GridSpec_t.
Variable dates : list datetime.
Variable cross_distance : pydict.
Variable h0 : heap.

Hypothesis allocated :
  forall k l, dict_get k cross_distance = Some l -> l < List.length h0.
Hypothesis one_column : 0 < gridspec.ncols gs.

Lemma in_grid_tail (ik : nat * string) (iks : list (nat * string)) :
  in_grid gs cross_distance (ik :: iks) -> in_grid gs cross_distance iks.
Proof. intros H i k Hin. apply H. now right. Qed.

Lemma plot_loop (iks : list (nat * string)) :
  in_grid gs cross_distance iks ->
  plottable h0 cross_distance (List.length dates) iks ->
  forall (fig : list panel) (ext : list ndarray),
  exists new ext',
    for_each iks (plot_transect gs dates cross_distance) fig (h0 ++ ext)
      = Some (fig ++ new, h0 ++ ext ++ ext') /\
    (forall p, In p new ->
       In (panel_row p, panel_text p) iks /\
       panel_dates p = dates /\
       exists a, series_at h0 cross_distance (panel_text p) = Some a /\
                 nanfunctions.all_isnan a = false /\
                 panel_values p =
                 map (fun v => F64.sub v (nanfunctions.nanmedian a)) a) /\
    (forall i k a, In (i, k) iks ->
       series_at h0 cross_distance k = Some a ->
       nanfunctions.all_isnan a = false ->
       exists p, In p new /\ panel_row p = i /\ panel_text p = k).
Proof.
  induction iks as [|[i k] iks IH]; intros Hiks Hlen fig ext.
  - exists [], []. simpl. rewrite !app_nil_r. split; [reflexivity|].
    split; [intros p []|intros i k a []].
  - destruct (Hiks i k (or_introl eq_refl)) as (Hkey & Hrow).
    destruct (dict_keys_get k cross_distance Hkey) as [l Hl].
    destruct (nth_error h0 l) as [a|] eqn:Ha.
    2:{ apply nth_error_None in Ha. specialize (allocated k l Hl). lia. }
    assert (Hs : series_at h0 cross_distance k = Some a)
      by (unfold series_at; now rewrite Hl).
    pose proof (plot_transect_run gs dates cross_distance i k fig (h0 ++ ext) l a
                  Hl (nth_error_grow h0 ext l a Ha) Hrow one_column) as Hstep.
    assert (Hlen' : plottable h0 cross_distance (List.length dates) iks)
      by (intros i0 k0 a0 Hin; apply (Hlen i0 k0 a0); now right).
    destruct (nanfunctions.all_isnan a) eqn:Hnan.
    + destruct (IH (in_grid_tail _ _ Hiks) Hlen' fig ext)
        as (new & ext' & Hrun & Hnew & Hall).
      exists new, ext'. split; [|split].
      * simpl. unfold bind. now rewrite Hstep.
      * intros p Hp. destruct (Hnew p Hp) as (Hin & Hrest).
        split; [now right|exact Hrest].
      * intros i0 k0 a0 [[= <- <-]|Hin] Hs0 Hn0.
        -- rewrite Hs in Hs0. injection Hs0 as <-. congruence.
        -- exact (Hall i0 k0 a0 Hin Hs0 Hn0).
    + rewrite (Hlen i k a (or_introl eq_refl) Hs Hnan), Nat.eqb_refl in Hstep.
      set (y := map (fun v => F64.sub v (nanfunctions.nanmedian a)) a) in *.
      set (p0 := {| panel_row := i; panel_dates := dates;
                    panel_values := y; panel_text := k |}) in *.
      destruct (IH (in_grid_tail _ _ Hiks) Hlen' (fig ++ [p0]) (ext ++ [y]))
        as (new & ext' & Hrun & Hnew & Hall).
      exists (p0 :: new), ([y] ++ ext'). split; [|split].
      * simpl. unfold bind. rewrite Hstep, <- app_assoc, Hrun.
        now rewrite <- !app_assoc.
      * intros p [<-|Hp].
        -- split; [now left|]. split; [reflexivity|]. now exists a.
        -- destruct (Hnew p Hp) as (Hin & Hrest). split; [now right|exact Hrest].
      * intros i0 k0 a0 [[= <- <-]|Hin] Hs0 Hn0.
        -- exists p0. split; [now left|]. now split.
        -- destruct (Hall i0 k0 a0 Hin Hs0 Hn0) as (p & Hp & Hrow' & Htext).
           exists p. split; [now right|]. now split.
Qed.

(** A loop that returns has met no series of another length than the dates. *)
Lemma plot_loop_inv (iks : list (nat * string)) :
  in_grid gs cross_distance iks ->
  forall (fig : list panel) (ext : list ndarray) (fig' : list panel) (h' : heap),
  for_each iks (plot_transect gs dates cross_distance) fig (h0 ++ ext)
    = Some (fig', h') ->
  plottable h0 cross_distance (List.length dates) iks.
Proof.
  induction iks as [|[i k] iks IH]; intros Hiks fig ext fig' h' Hrun.
  - intros i k a [].
  - destruct (Hiks i k (or_introl eq_refl)) as (Hkey & Hrow).
    destruct (dict_keys_get k cross_distance Hkey) as [l Hl].
    destruct (nth_error h0 l) as [a|] eqn:Ha.
    2:{ apply nth_error_None in Ha. specialize (allocated k l Hl). lia. }
    assert (Hs : series_at h0 cross_distance k = Some a)
      by (unfold series_at; now rewrite Hl).
    pose proof (plot_transect_run gs dates cross_distance i k fig (h0 ++ ext) l a
                  Hl (nth_error_grow h0 ext l a Ha) Hrow one_column) as Hstep.
    simpl in Hrun. unfold bind in Hrun. rewrite Hstep in Hrun.
    destruct (nanfunctions.all_isnan a) eqn:Hnan.
    + pose proof (IH (in_grid_tail _ _ Hiks) fig ext fig' h' Hrun) as Hrest.
      intros i0 k0 a0 [[= <- <-]|Hin] Hs0 Hn0.
      * rewrite Hs in Hs0. injection Hs0 as <-. congruence.
      * exact (Hrest i0 k0 a0 Hin Hs0 Hn0).
    + destruct (List.length dates =? List.length a) eqn:Heq; [|discriminate].
      apply Nat.eqb_eq in Heq. rewrite <- app_assoc in Hrun.
      pose proof (IH (in_grid_tail _ _ Hiks) _ _ fig' h' Hrun) as Hrest.
      intros i0 k0 a0 [[= <- <-]|Hin] Hs0 Hn0.
      * rewrite Hs in Hs0. injection Hs0 as <-. now symmetry.
      * exact (Hrest i0 k0 a0 Hin Hs0 Hn0).
Qed.

End Figure.

(** Without a name there is no grid. *)
Lemma plot_time_series_empty (output : output_t) (h : heap) :
  plot_time_series output [] h = None.
Proof. reflexivity. Qed.

(** With a name the grid has one row per name and the loop runs. *)
Lemma plot_time_series_grid (output : output_t) (cross_distance : pydict)
    (h : heap) :
  cross_distance <> [] ->
  plot_time_series output cross_distance h =
  for_each (enumerate (dict_keys cross_distance))
    (plot_transect {| gridspec.nrows := List.length cross_distance;
                      gridspec.ncols := 1 |}
       (output_dates output) cross_distance) [] h.
Proof.
  intros Hne. destruct cross_distance as [|kv d]; [congruence|]. reflexivity.
Qed.

Lemma enumerate_in_grid (cross_distance : pydict) :
  in_grid {| gridspec.nrows := List.length cross_distance; gridspec.ncols := 1 |}
    cross_distance (enumerate (dict_keys cross_distance)).
Proof.
  intros i k Hin. apply In_enumerate in Hin. split.
  - eapply nth_error_In. exact Hin.
  - simpl. assert (Hlt : i < List.length (dict_keys cross_distance))
      by (apply nth_error_Some; congruence).
    unfold dict_keys in Hlt. now rewrite length_map in Hlt.
Qed.

Lemma plottable_enumerate (h : heap) (cross_distance : pydict) (n : nat) :
  plottable h cross_distance n (enumerate (dict_keys cross_distance)) <->
  (forall key a, series_at h cross_distance key = Some a ->
     nanfunctions.all_isnan a = false -> List.length a = n).
Proof.
  split.
  - intros H key a Ha Hn.
    assert (Hkey : In key (dict_keys cross_distance)).
    { unfold series_at in Ha. destruct (dict_get key cross_distance) eqn:E;
        [|discriminate]. eapply dict_get_keys; eauto. }
    apply In_nth_error in Hkey as (i & Hi).
    exact (H i key a (proj2 (In_enumerate _ i key) Hi) Ha Hn).
  - intros H i k a _ Ha Hn. exact (H k a Ha Hn).
Qed.


(** * Properties of the analysis cells *)

(** ** Tidal correction *)

(** C1. On a store where every raw series has one entry per date and
    [tides_sat] holds the tide level of each date, the tidal-correction cell
    returns, and for every transect and every date the corrected distance is
    [raw + (tide - reference_elevation) / beach_slope], computed in binary64.
    This holds for every raw value, the finite ones in particular. *)
Theorem tidal_correction_formula (elevation slope : float)
    (cross_distance : pydict) (tides_sat : loc) (h : heap) (tides : ndarray) :
  nth_error h tides_sat = Some tides ->
  aligned h cross_distance (List.length tides) ->
  exists corrected h',
    cross_distance_tidally_corrected elevation slope cross_distance tides_sat h
      = Some (corrected, h') /\
    forall key raw i r t,
      series_at h cross_distance key = Some raw ->
      nth_error raw i = Some r ->
      nth_error tides i = Some t ->
      exists out,
        series_at h' corrected key = Some out /\
        nth_error out i = Some (F64.add r (F64.div (F64.sub t elevation) slope)).
Proof.
  intros Ht Hal.
  destruct (tidal_correction_series elevation slope _ _ _ _ Ht Hal)
    as (corrected & ext & Hrun & Hser & _ & _).
  exists corrected, (h ++ ext). split; [exact Hrun|].
  intros key raw i r t Hraw Hr Hti.
  exists (corrected_series elevation slope tides raw). split.
  - now apply Hser.
  - now apply corrected_series_nth.
Qed.

Lemma tidal_correction_formula_witness :
  exists corrected h',
    cross_distance_tidally_corrected reference_elevation beach_slope
      example_cross_distance example_tides_sat example_heap
      = Some (corrected, h') /\
    forall key raw i r t,
      series_at example_heap example_cross_distance key = Some raw ->
      nth_error raw i = Some r ->
      nth_error [f64 1 2; f64 1 4] i = Some t ->
      exists out,
        series_at h' corrected key = Some out /\
        nth_error out i =
        Some (F64.add r (F64.div (F64.sub t reference_elevation) beach_slope)).
Proof.
  apply (@tidal_correction_formula reference_elevation beach_slope
           example_cross_distance example_tides_sat example_heap
           [f64 1 2; f64 1 4]).
  - reflexivity.
  - exact example_aligned.
Defined.

(** Tide levels 0.5 and 0.25 over a slope of 1/60 shift the two dates by 30 m
    and 15 m; the rejected cell of NA1 stays NaN. *)
Example tidal_correction_example :
  exists corrected h',
    cross_distance_tidally_corrected reference_elevation beach_slope
      example_cross_distance example_tides_sat example_heap
      = Some (corrected, h') /\
    series_at h' corrected "NA1" = Some [F64.of_Z 130; F64.nan] /\
    series_at h' corrected "NA2" = Some [F64.of_Z 125; F64.of_Z 112].
Proof. vm_compute. do 2 eexists. repeat split; reflexivity. Qed.

(** C4. A NaN raw distance stays NaN: the cell returns (no exception), and
    every cell whose raw distance is NaN holds NaN after the correction. *)
Theorem nan_raw_distance_stays_nan (elevation slope : float)
    (cross_distance : pydict) (tides_sat : loc) (h : heap) (tides : ndarray) :
  nth_error h tides_sat = Some tides ->
  aligned h cross_distance (List.length tides) ->
  exists corrected h',
    cross_distance_tidally_corrected elevation slope cross_distance tides_sat h
      = Some (corrected, h') /\
    forall key raw i,
      series_at h cross_distance key = Some raw ->
      nth_error raw i = Some F64.nan ->
      exists out,
        series_at h' corrected key = Some out /\
        nth_error out i = Some F64.nan.
Proof.
  intros Ht Hal.
  destruct (tidal_correction_series elevation slope _ _ _ _ Ht Hal)
    as (corrected & ext & Hrun & Hser & _ & _).
  exists corrected, (h ++ ext). split; [exact Hrun|].
  intros key raw i Hraw Hnan.
  destruct (nth_error_same_length raw tides i _
              (aligned_series _ _ _ key _ Hal Hraw) Hnan) as (t & Hti).
  exists (corrected_series elevation slope tides raw). split.
  - now apply Hser.
  - rewrite (corrected_series_nth elevation slope _ _ _ _ _ Hnan Hti).
    now rewrite f64_add_nan_l.
Qed.

Lemma nan_raw_distance_stays_nan_witness :
  exists corrected h',
    cross_distance_tidally_corrected reference_elevation beach_slope
      example_cross_distance example_tides_sat example_heap
      = Some (corrected, h') /\
    forall key raw i,
      series_at example_heap example_cross_distance key = Some raw ->
      nth_error raw i = Some F64.nan ->
      exists out,
        series_at h' corrected key = Some out /\
        nth_error out i = Some F64.nan.
Proof.
  apply (@nan_raw_distance_stays_nan reference_elevation beach_slope
           example_cross_distance example_tides_sat example_heap
           [f64 1 2; f64 1 4]).
  - reflexivity.
  - exact example_aligned.
Defined.

(** C5. Round trip: when the reference elevation is the tide level of a date,
    the corrected distance of that date equals the raw distance, for every
    transect whose raw distance is finite.  The tide level is a finite number
    and the slope is neither zero nor NaN.  Equality is that of binary64
    ([==]); it is identity unless the raw distance is a zero, whose sign may
    change. *)
Theorem correction_at_tide_level_is_identity (slope : float)
    (cross_distance : pydict) (tides_sat : loc) (h : heap) (tides : ndarray)
    (i : nat) (t : float) :
  nth_error h tides_sat = Some tides ->
  aligned h cross_distance (List.length tides) ->
  nth_error tides i = Some t ->
  F64.is_finite t = true ->
  F64.is_nan slope = false ->
  F64.is_zero slope = false ->
  exists corrected h',
    cross_distance_tidally_corrected t slope cross_distance tides_sat h
      = Some (corrected, h') /\
    forall key raw r,
      series_at h cross_distance key = Some raw ->
      nth_error raw i = Some r ->
      F64.is_finite r = true ->
      exists out c,
        series_at h' corrected key = Some out /\
        nth_error out i = Some c /\
        F64.eqb c r = true /\
        (F64.is_zero r = false -> c = r).
Proof.
  intros Ht Hal Hti Hfin Hnan Hzero.
  destruct (tidal_correction_series t slope _ _ _ _ Ht Hal)
    as (corrected & ext & Hrun & Hser & _ & _).
  exists corrected, (h ++ ext). split; [exact Hrun|].
  intros key raw r Hraw Hr Hrfin.
  exists (corrected_series t slope tides raw).
  exists (F64.add r (F64.div (F64.sub t t) slope)).
  split; [now apply Hser|].
  split; [now apply corrected_series_nth|].
  rewrite (f64_sub_diag t Hfin).
  destruct (f64_div_zero_l false slope Hnan Hzero) as (s' & ->).
  split.
  - now apply f64_add_zero_r.
  - intros Hrz. destruct r; try discriminate; reflexivity.
Qed.

Lemma correction_at_tide_level_is_identity_witness :
  exists corrected h',
    cross_distance_tidally_corrected (f64 1 2) beach_slope
      example_cross_distance example_tides_sat example_heap
      = Some (corrected, h') /\
    forall key raw r,
      series_at example_heap example_cross_distance key = Some raw ->
      nth_error raw 0 = Some r ->
      F64.is_finite r = true ->
      exists out c,
        series_at h' corrected key = Some out /\
        nth_error out 0 = Some c /\
        F64.eqb c r = true /\
        (F64.is_zero r = false -> c = r).
Proof.
  apply (@correction_at_tide_level_is_identity beach_slope
           example_cross_distance example_tides_sat example_heap
           [f64 1 2; f64 1 4] 0 (f64 1 2)).
  - reflexivity.
  - exact example_aligned.
  - reflexivity.
  - reflexivity.
  - reflexivity.
  - reflexivity.
Defined.

(** C9 as stated fails.  One date, tide level 0.2, reference elevation 0,
    slope 1; transect NA1 has raw distance 0.1 and transect NA2 has 0.0.  The
    corrected distances are 0.30000000000000004 and 0.2, so [corrected - raw]
    is 0.20000000000000004 on NA1 and 0.2 on NA2: each sum is rounded on its
    own. *)
Lemma shift_differs_between_transects :
  exists corrected h' c1 c2,
    cross_distance_tidally_corrected (F64.of_Z 0) (F64.of_Z 1)
      example_cross_distance example_tides_sat rounding_heap
      = Some (corrected, h') /\
    series_at rounding_heap example_cross_distance "NA1" = Some [f64 1 10] /\
    series_at rounding_heap example_cross_distance "NA2" = Some [F64.of_Z 0] /\
    series_at h' corrected "NA1" = Some [c1] /\
    series_at h' corrected "NA2" = Some [c2] /\
    F64.eqb (F64.sub c1 (f64 1 10)) (F64.sub c2 (F64.of_Z 0)) = false.
Proof.
  vm_compute. do 4 eexists. repeat split; reflexivity.
Qed.

(** C9, amended.  The correction is one vector, computed from the tide levels,
    the reference elevation and the slope alone, and the corrected series of
    every transect is its raw series plus that vector, entry by entry, in
    binary64: at each date every transect is shifted by the same term
    [(tide - reference_elevation) / beach_slope]. *)
Theorem one_correction_for_all_transects (elevation slope : float)
    (cross_distance : pydict) (tides_sat : loc) (h : heap) (tides : ndarray) :
  nth_error h tides_sat = Some tides ->
  aligned h cross_distance (List.length tides) ->
  exists corrected h' correction,
    cross_distance_tidally_corrected elevation slope cross_distance tides_sat h
      = Some (corrected, h') /\
    correction = correction_of elevation slope tides /\
    (forall key raw,
       series_at h cross_distance key = Some raw ->
       series_at h' corrected key = Some (map2 F64.add raw correction)) /\
    (forall k1 k2 raw1 raw2 i r1 r2 t,
       series_at h cross_distance k1 = Some raw1 ->
       series_at h cross_distance k2 = Some raw2 ->
       nth_error raw1 i = Some r1 ->
       nth_error raw2 i = Some r2 ->
       nth_error tides i = Some t ->
       exists out1 out2 c,
         c = F64.div (F64.sub t elevation) slope /\
         series_at h' corrected k1 = Some out1 /\
         series_at h' corrected k2 = Some out2 /\
         nth_error out1 i = Some (F64.add r1 c) /\
         nth_error out2 i = Some (F64.add r2 c)).
Proof.
  intros Ht Hal.
  destruct (tidal_correction_series elevation slope _ _ _ _ Ht Hal)
    as (corrected & ext & Hrun & Hser & _ & _).
  exists corrected, (h ++ ext), (correction_of elevation slope tides).
  split; [exact Hrun|]. split; [reflexivity|]. split.
  - intros key raw Hraw. exact (Hser key raw Hraw).
  - intros k1 k2 raw1 raw2 i r1 r2 t H1 H2 Hr1 Hr2 Hti.
    exists (corrected_series elevation slope tides raw1),
           (corrected_series elevation slope tides raw2),
           (F64.div (F64.sub t elevation) slope).
    split; [reflexivity|].
    split; [now apply Hser|]. split; [now apply Hser|].
    split; now apply corrected_series_nth.
Qed.

Lemma one_correction_for_all_transects_witness :
  exists corrected h' correction,
    cross_distance_tidally_corrected reference_elevation beach_slope
      example_cross_distance example_tides_sat example_heap
      = Some (corrected, h') /\
    correction = correction_of reference_elevation beach_slope [f64 1 2; f64 1 4] /\
    (forall key raw,
       series_at example_heap example_cross_distance key = Some raw ->
       series_at h' corrected key = Some (map2 F64.add raw correction)) /\
    (forall k1 k2 raw1 raw2 i r1 r2 t,
       series_at example_heap example_cross_distance k1 = Some raw1 ->
       series_at example_heap example_cross_distance k2 = Some raw2 ->
       nth_error raw1 i = Some r1 ->
       nth_error raw2 i = Some r2 ->
       nth_error [f64 1 2; f64 1 4] i = Some t ->
       exists out1 out2 c,
         c = F64.div (F64.sub t reference_elevation) beach_slope /\
         series_at h' corrected k1 = Some out1 /\
         series_at h' corrected k2 = Some out2 /\
         nth_error out1 i = Some (F64.add r1 c) /\
         nth_error out2 i = Some (F64.add r2 c)).
Proof.
  apply (@one_correction_for_all_transects reference_elevation beach_slope
           example_cross_distance example_tides_sat example_heap
           [f64 1 2; f64 1 4]).
  - reflexivity.
  - exact example_aligned.
Defined.

(** C10. The cell does not modify its input: it returns, every array of the
    initial store is unchanged afterwards, so the raw series read through
    [cross_distance] are the same before and after, and every corrected
    series lives at an address that did not exist before. *)
Theorem tidal_correction_preserves_raw (elevation slope : float)
    (cross_distance : pydict) (tides_sat : loc) (h : heap) (tides : ndarray) :
  nth_error h tides_sat = Some tides ->
  aligned h cross_distance (List.length tides) ->
  exists corrected h',
    cross_distance_tidally_corrected elevation slope cross_distance tides_sat h
      = Some (corrected, h') /\
    (forall l a, nth_error h l = Some a -> nth_error h' l = Some a) /\
    (forall key raw,
       series_at h cross_distance key = Some raw ->
       series_at h' cross_distance key = Some raw) /\
    (forall key l', dict_get key corrected = Some l' ->
       nth_error h l' = None /\
       forall k l, dict_get k cross_distance = Some l -> l <> l').
Proof.
  intros Ht Hal.
  destruct (tidal_correction_series elevation slope _ _ _ _ Ht Hal)
    as (corrected & ext & Hrun & _ & Hfresh & _).
  exists corrected, (h ++ ext). split; [exact Hrun|].
  split; [|split].
  - intros l a Hl. now apply nth_error_grow.
  - intros key raw Hraw. unfold series_at in *.
    destruct (dict_get key cross_distance) as [l|]; [|discriminate].
    now apply nth_error_grow.
  - intros key l' Hl'. destruct (Hfresh key l' Hl') as (Hge & _).
    split.
    + now apply nth_error_None.
    + intros k l Hk ->.
      destruct (Hal k _ Hk) as (a & Ha & _).
      assert (l' < List.length h) by (apply nth_error_Some; congruence).
      lia.
Qed.

Lemma tidal_correction_preserves_raw_witness :
  exists corrected h',
    cross_distance_tidally_corrected reference_elevation beach_slope
      example_cross_distance example_tides_sat example_heap
      = Some (corrected, h') /\
    (forall l a, nth_error example_heap l = Some a -> nth_error h' l = Some a) /\
    (forall key raw,
       series_at example_heap example_cross_distance key = Some raw ->
       series_at h' example_cross_distance key = Some raw) /\
    (forall key l', dict_get key corrected = Some l' ->
       nth_error example_heap l' = None /\
       forall k l, dict_get k example_cross_distance = Some l -> l <> l').
Proof.
  apply (@tidal_correction_preserves_raw reference_elevation beach_slope
           example_cross_distance example_tides_sat example_heap
           [f64 1 2; f64 1 4]).
  - reflexivity.
  - exact example_aligned.
Defined.

(** C3 as stated fails.  With [beach_slope = 0] the cell is not rejected: it
    runs to the end and stores [inf] where a distance should be (tide levels
    0.5 and 0.25, reference elevation 0, transect NA2 with raw distances 95
    and 97). *)
Lemma zero_slope_is_not_rejected :
  exists corrected h',
    cross_distance_tidally_corrected reference_elevation (F64.of_Z 0)
      example_cross_distance example_tides_sat example_heap
      = Some (corrected, h') /\
    series_at h' corrected "NA2" = Some [S754_infinity false; S754_infinity false].
Proof.
  vm_compute. do 2 eexists. split; reflexivity.
Qed.

(** C3, amended.  The cell has no validation of the slope: whatever its value
    (zero, negative, NaN), the cell returns.  The division is by a non-zero
    number with the slope the notebook sets, [beach_slope = 1/60], which is
    finite and positive.  With a zero slope the division is carried out in
    binary64 and every corrected cell is [inf], [-inf] or NaN. *)
Theorem slope_is_not_validated (elevation : float)
    (cross_distance : pydict) (tides_sat : loc) (h : heap) (tides : ndarray) :
  nth_error h tides_sat = Some tides ->
  aligned h cross_distance (List.length tides) ->
  (F64.is_finite beach_slope = true /\ F64.ltb (F64.of_Z 0) beach_slope = true) /\
  (forall slope, exists corrected h',
     cross_distance_tidally_corrected elevation slope cross_distance tides_sat h
       = Some (corrected, h')) /\
  (forall sign, exists corrected h',
     cross_distance_tidally_corrected elevation (S754_zero sign)
       cross_distance tides_sat h = Some (corrected, h') /\
     forall key raw i r,
       series_at h cross_distance key = Some raw ->
       nth_error raw i = Some r ->
       exists out c,
         series_at h' corrected key = Some out /\
         nth_error out i = Some c /\
         F64.is_finite c = false).
Proof.
  intros Ht Hal. split; [split; reflexivity|]. split.
  - intros slope.
    destruct (tidal_correction_series elevation slope _ _ _ _ Ht Hal)
      as (corrected & ext & Hrun & _).
    now exists corrected, (h ++ ext).
  - intros sign.
    destruct (tidal_correction_series elevation (S754_zero sign) _ _ _ _ Ht Hal)
      as (corrected & ext & Hrun & Hser & _ & _).
    exists corrected, (h ++ ext). split; [exact Hrun|].
    intros key raw i r Hraw Hr.
    destruct (nth_error_same_length raw tides i _
                (aligned_series _ _ _ key _ Hal Hraw) Hr) as (t & Hti).
    exists (corrected_series elevation (S754_zero sign) tides raw).
    exists (F64.add r (F64.div (F64.sub t elevation) (S754_zero sign))).
    split; [now apply Hser|]. split.
    + now apply corrected_series_nth.
    + apply f64_add_not_finite_r. apply f64_div_by_zero_not_finite.
Qed.

Lemma slope_is_not_validated_witness :
  (F64.is_finite beach_slope = true /\ F64.ltb (F64.of_Z 0) beach_slope = true) /\
  (forall slope, exists corrected h',
     cross_distance_tidally_corrected reference_elevation slope
       example_cross_distance example_tides_sat example_heap
       = Some (corrected, h')) /\
  (forall sign, exists corrected h',
     cross_distance_tidally_corrected reference_elevation (S754_zero sign)
       example_cross_distance example_tides_sat example_heap
       = Some (corrected, h') /\
     forall key raw i r,
       series_at example_heap example_cross_distance key = Some raw ->
       nth_error raw i = Some r ->
       exists out c,
         series_at h' corrected key = Some out /\
         nth_error out i = Some c /\
         F64.is_finite c = false).
Proof.
  apply (@slope_is_not_validated reference_elevation
           example_cross_distance example_tides_sat example_heap
           [f64 1 2; f64 1 4]).
  - reflexivity.
  - exact example_aligned.
Defined.

(** ** The exported tables *)

(** C7. Both export cells return a table with one row per curated date, in the
    order of the date axis.  For every transect the column of the raw table is
    the raw series and the column of the corrected table is the corrected
    series, entry for entry, so each has as many entries as there are dates
    and a NaN entry is a row like any other.  The ["dates"] column is the date
    axis itself (unless a transect is named ["dates"], which overwrites it),
    so the rows are in chronological order when the curated dates are. *)
Theorem output_tables_keep_every_date (output : output_t)
    (transects : dict Transect) (elevation slope : float)
    (cross_distance : pydict) (tides_sat : loc) (h : heap) (tides : ndarray) :
  nth_error h tides_sat = Some tides ->
  List.length tides = List.length (output_dates output) ->
  aligned h cross_distance (List.length (output_dates output)) ->
  (forall key, In key (dict_keys transects) -> In key (dict_keys cross_distance)) ->
  exists df_raw corrected h' df_corrected,
    transect_time_series output transects cross_distance h = Some (df_raw, h) /\
    cross_distance_tidally_corrected elevation slope cross_distance tides_sat h
      = Some (corrected, h') /\
    transect_time_series_tidally_corrected (output_dates output) corrected h'
      = Some (df_corrected, h') /\
    pd.index df_raw = seq 0 (List.length (output_dates output)) /\
    pd.index df_corrected = seq 0 (List.length (output_dates output)) /\
    (forall key, In key (dict_keys transects) ->
       exists raw out,
         series_at h cross_distance key = Some raw /\
         dict_get key (pd.columns df_raw) = Some (pd.FloatColumn raw) /\
         List.length raw = List.length (output_dates output) /\
         series_at h' corrected key = Some out /\
         dict_get key (pd.columns df_corrected) = Some (pd.FloatColumn out) /\
         List.length out = List.length (output_dates output)) /\
    (~ In "dates"%string (dict_keys cross_distance) ->
       dict_get "dates" (pd.columns df_raw)
         = Some (pd.DateColumn (output_dates output)) /\
       dict_get "dates" (pd.columns df_corrected)
         = Some (pd.DateColumn (output_dates output)) /\
       (StronglySorted Z.lt (output_dates output) ->
        forall df i j di dj,
          df = df_raw \/ df = df_corrected ->
          i < j ->
          pd.date_at df "dates" i = Some di ->
          pd.date_at df "dates" j = Some dj ->
          (di < dj)%Z)).
Proof.
  intros Ht Hlen Hal Hkeys.
  destruct (table_run h (output_dates output) (dict_keys transects)
              cross_distance Hal Hkeys)
    as (out1 & cols1 & Hfill1 & Hdf1 & Hcol1 & Hdates1).
  rewrite <- Hlen in Hal.
  destruct (tidal_correction_series elevation slope _ _ _ _ Ht Hal)
    as (corrected & ext & Hrun & Hser & Hfresh & Hal').
  rewrite Hlen in Hal, Hal'.
  destruct (table_run (h ++ ext) (output_dates output) (dict_keys corrected)
              corrected Hal' (fun k H => H))
    as (out2 & cols2 & Hfill2 & Hdf2 & Hcol2 & Hdates2).
  exists {| pd.index := seq 0 (List.length (output_dates output));
            pd.columns := cols1 |}.
  exists corrected, (h ++ ext).
  exists {| pd.index := seq 0 (List.length (output_dates output));
            pd.columns := cols2 |}.
  split. { unfold transect_time_series, bind. now rewrite Hfill1. }
  split. { exact Hrun. }
  split. { unfold transect_time_series_tidally_corrected, bind. now rewrite Hfill2. }
  split; [reflexivity|]. split; [reflexivity|]. split.
  - intros key Hkey.
    destruct (Hcol1 key Hkey) as (raw & Hraw & Hc1 & Hn1).
    assert (Hin2 : In key (dict_keys corrected)).
    { specialize (Hser key raw Hraw). unfold series_at in Hser.
      destruct (dict_get key corrected) as [l'|] eqn:E; [|discriminate].
      eapply dict_get_keys; eauto. }
    destruct (Hcol2 key Hin2) as (out & Hout & Hc2 & Hn2).
    exists raw, out. simpl. repeat split; assumption.
  - intros Hd.
    assert (Hd1 : ~ In "dates"%string (dict_keys transects)).
    { intros H. apply Hd. now apply Hkeys. }
    assert (Hd2 : ~ In "dates"%string (dict_keys corrected)).
    { intros H. apply dict_keys_get in H as (l' & Hl').
      destruct (Hfresh _ _ Hl') as (_ & l & Hl).
      apply Hd. eapply dict_get_keys; eauto. }
    simpl. split; [now apply Hdates1|]. split; [now apply Hdates2|].
    intros Hsorted df i j di dj Hdf Hij Hi Hj.
    apply (sorted_nth_lt (output_dates output) i j); auto.
    + destruct Hdf as [-> | ->]; unfold pd.date_at in Hi; simpl in Hi.
      * now rewrite (Hdates1 Hd1) in Hi.
      * now rewrite (Hdates2 Hd2) in Hi.
    + destruct Hdf as [-> | ->]; unfold pd.date_at in Hj; simpl in Hj.
      * now rewrite (Hdates1 Hd1) in Hj.
      * now rewrite (Hdates2 Hd2) in Hj.
Qed.

Lemma output_tables_keep_every_date_witness :
  exists df_raw corrected h' df_corrected,
    transect_time_series example_output example_transects
      example_cross_distance example_heap = Some (df_raw, example_heap) /\
    cross_distance_tidally_corrected reference_elevation beach_slope
      example_cross_distance example_tides_sat example_heap
      = Some (corrected, h') /\
    transect_time_series_tidally_corrected (output_dates example_output)
      corrected h' = Some (df_corrected, h') /\
    pd.index df_raw = seq 0 (List.length (output_dates example_output)) /\
    pd.index df_corrected = seq 0 (List.length (output_dates example_output)) /\
    (forall key, In key (dict_keys example_transects) ->
       exists raw out,
         series_at example_heap example_cross_distance key = Some raw /\
         dict_get key (pd.columns df_raw) = Some (pd.FloatColumn raw) /\
         List.length raw = List.length (output_dates example_output) /\
         series_at h' corrected key = Some out /\
         dict_get key (pd.columns df_corrected) = Some (pd.FloatColumn out) /\
         List.length out = List.length (output_dates example_output)) /\
    (~ In "dates"%string (dict_keys example_cross_distance) ->
       dict_get "dates" (pd.columns df_raw)
         = Some (pd.DateColumn (output_dates example_output)) /\
       dict_get "dates" (pd.columns df_corrected)
         = Some (pd.DateColumn (output_dates example_output)) /\
       (StronglySorted Z.lt (output_dates example_output) ->
        forall df i j di dj,
          df = df_raw \/ df = df_corrected ->
          i < j ->
          pd.date_at df "dates" i = Some di ->
          pd.date_at df "dates" j = Some dj ->
          (di < dj)%Z)).
Proof.
  apply (output_tables_keep_every_date example_output example_transects
           reference_elevation beach_slope example_cross_distance
           example_tides_sat example_heap [f64 1 2; f64 1 4]).
  - reflexivity.
  - reflexivity.
  - exact example_aligned.
  - intros key H. exact H.
Defined.

(** The raw table of the example: two rows, the second with a NaN under
    NA1. *)
Example raw_table_example :
  transect_time_series example_output example_transects
    example_cross_distance example_heap
  = Some ({| pd.index := [0; 1];
             pd.columns :=
               [ ("dates"%string,
                  pd.DateColumn [1577836800000000; 1578268800000000]%Z);
                 ("NA1"%string, pd.FloatColumn [F64.of_Z 100; F64.nan]);
                 ("NA2"%string, pd.FloatColumn [F64.of_Z 95; F64.of_Z 97]) ] |},
          example_heap).
Proof. vm_compute. reflexivity. Qed.

(** ** The tide lookup *)

(** C8. For a non-empty tide series, [get_closest_datapoint] returns one
    level per acquisition date, and the level of a date is that of a sample
    of the series whose timestamp is closest to the date in absolute time;
    among samples equally close it is the earliest.  The function belongs to
    the [coastsat] package: the statement is about its model from section 4.4
    of the specification. *)
Theorem tide_level_is_nearest_sample (dates dates_ts : list datetime)
    (values_ts : loc) (h : heap) (values : ndarray) :
  nth_error h values_ts = Some values ->
  combine dates_ts values <> [] ->
  exists tides_sat h' tides,
    SDS_tools.get_closest_datapoint dates dates_ts values_ts h
      = Some (tides_sat, h') /\
    nth_error h' tides_sat = Some tides /\
    List.length tides = List.length dates /\
    forall i d, nth_error dates i = Some d ->
      exists t v,
        In (t, v) (combine dates_ts values) /\
        nth_error tides i = Some v /\
        forall t' v', In (t', v') (combine dates_ts values) ->
          (Z.abs (t - d) <= Z.abs (t' - d))%Z /\
          (Z.abs (t - d) = Z.abs (t' - d) -> t <= t')%Z.
Proof.
  intros Hv Hne.
  destruct (tide_levels_spec (combine dates_ts values) dates Hne)
    as (tides & Hrun & Hlen & Hnth).
  exists (List.length h), (h ++ [tides]), tides.
  split; [|split; [apply nth_error_last|split; [exact Hlen|]]].
  - unfold SDS_tools.get_closest_datapoint, bind, deref. rewrite Hv, Hrun.
    reflexivity.
  - intros i d Hd. destruct (Hnth i d Hd) as (v & Hi & Hlevel).
    destruct (tideLevel_spec (combine dates_ts values) d Hne)
      as (t & v0 & Hv0 & Hin & Hbest).
    assert (v0 = v) as -> by congruence.
    exists t, v. split; [exact Hin|]. split; [exact Hi|].
    intros t' v' H'. exact (Hbest t' v' H').
Qed.

Lemma tide_level_is_nearest_sample_witness :
  exists tides_sat h' tides,
    SDS_tools.get_closest_datapoint [5; 16]%Z gauge_dates 0 gauge_heap
      = Some (tides_sat, h') /\
    nth_error h' tides_sat = Some tides /\
    List.length tides = List.length [5; 16]%Z /\
    forall i d, nth_error [5; 16]%Z i = Some d ->
      exists t v,
        In (t, v) (combine gauge_dates [F64.of_Z 1; F64.of_Z 2; F64.of_Z 3]) /\
        nth_error tides i = Some v /\
        forall t' v',
          In (t', v') (combine gauge_dates [F64.of_Z 1; F64.of_Z 2; F64.of_Z 3]) ->
          (Z.abs (t - d) <= Z.abs (t' - d))%Z /\
          (Z.abs (t - d) = Z.abs (t' - d) -> t <= t')%Z.
Proof.
  apply (tide_level_is_nearest_sample [5; 16]%Z gauge_dates 0 gauge_heap
           [F64.of_Z 1; F64.of_Z 2; F64.of_Z 3]).
  - reflexivity.
  - discriminate.
Defined.

(** The date 5 lies halfway between the samples at 0 and 10: the earlier one
    is taken.  The date 16 is nearest to the sample at 20. *)
Example tide_lookup_example :
  SDS_tools.get_closest_datapoint [5; 16]%Z gauge_dates 0 gauge_heap
  = Some (1, gauge_heap ++ [[F64.of_Z 1; F64.of_Z 3]]).
Proof. vm_compute. reflexivity. Qed.

(** ** The quality-controlled intersections *)

(** C6. On well-formed transects and at least one shoreline the engine returns
    (it does not raise), and every (transect, date) cell for which fewer than
    [min_points] shoreline points lie within [along_dist] of the transect
    holds NaN.  This holds for any clustering rule and any policy.  The
    engine belongs to the [coastsat] package: the statement is about its model
    from section 4.3 of the specification. *)
Theorem too_few_points_gives_nan
    (clusters : float -> float -> list float -> list (list float))
    (output : output_t) (transects : dict Transect) (s : settings_t) (h : heap) :
  forallb (fun kt => SDS_transects.well_formed (snd kt)) transects = true ->
  output_shorelines output <> [] ->
  transects <> [] ->
  exists cross_distance h',
    SDS_transects.compute_intersection_QC clusters output transects s h
      = Some (Some cross_distance, h') /\
    forall key t i points,
      dict_get key transects = Some t ->
      nth_error (output_shorelines output) i = Some points ->
      List.length (SDS_transects.pointsWithinAlongshoreBand t points (along_dist s))
        < min_points s ->
      exists series,
        series_at h' cross_distance key = Some series /\
        List.length series = List.length (output_shorelines output) /\
        nth_error series i = Some F64.nan.
Proof.
  intros Hwf Hsl Htr.
  destruct (compute_intersection_QC_run clusters output transects s h Hwf Hsl Htr)
    as (cd & ext & Hrun & Hser & _).
  exists cd, (h ++ ext). split; [exact Hrun|].
  intros key t i points Ht Hi Hfew.
  exists (SDS_transects.transect_series clusters s t (output_shorelines output)).
  split; [now apply Hser|]. split; [apply transect_series_length|].
  unfold SDS_transects.transect_series.
  rewrite nth_error_map, nth_error_map, Hi. simpl.
  rewrite (analyse_too_few clusters s t points Hfew). reflexivity.
Qed.

Lemma too_few_points_gives_nan_witness :
  exists cross_distance h',
    SDS_transects.compute_intersection_QC SDS_transects.gap_clusters
      example_output example_transects settings_transects []
      = Some (Some cross_distance, h') /\
    forall key t i points,
      dict_get key example_transects = Some t ->
      nth_error (output_shorelines example_output) i = Some points ->
      List.length (SDS_transects.pointsWithinAlongshoreBand t points
                     (along_dist settings_transects))
        < min_points settings_transects ->
      exists series,
        series_at h' cross_distance key = Some series /\
        List.length series = List.length (output_shorelines example_output) /\
        nth_error series i = Some F64.nan.
Proof.
  apply (too_few_points_gives_nan SDS_transects.gap_clusters
           example_output example_transects settings_transects []).
  - reflexivity.
  - discriminate.
  - discriminate.
Defined.

(** On the second image only two points lie within 25 m of NA1: its cell is
    NaN, the others hold the median chainage. *)
Example engine_example :
  SDS_transects.compute_intersection_QC SDS_transects.gap_clusters
    example_output example_transects settings_transects []
  = Some (Some example_cross_distance,
          [ [F64.of_Z 100; F64.nan]; [F64.of_Z 95; F64.of_Z 97] ]).
Proof. vm_compute. reflexivity. Qed.

(** C2. Under ['multiple_inter': 'auto'] the policy of a transect is one
    value for all its dates: "max" when the fraction of its dates at which
    several clusters are detected exceeds ['prc_multiple'], "nan" otherwise.
    The series of the transect is the per-date intersection under that one
    policy, and is the series that the settings "max" (respectively "nan")
    produce for the transect.  The engine belongs to the [coastsat] package:
    the statement is about its model from section 4.3 of the specification. *)
Theorem auto_policy_is_decided_per_transect
    (clusters : float -> float -> list float -> list (list float))
    (output : output_t) (transects : dict Transect) (s : settings_t) (h : heap) :
  multiple_inter s = inter_auto ->
  forallb (fun kt => SDS_transects.well_formed (snd kt)) transects = true ->
  output_shorelines output <> [] ->
  transects <> [] ->
  exists cross_distance h',
    SDS_transects.compute_intersection_QC clusters output transects s h
      = Some (Some cross_distance, h') /\
    forall key t,
      dict_get key transects = Some t ->
      exists fraction policy mode,
        fraction =
          F64.div
            (F64.of_nat (List.length (SDS_transects.dates_with_multiple clusters s t
                                        (output_shorelines output))))
            (F64.of_nat (List.length (output_shorelines output))) /\
        (policy, mode) =
          (if F64.ltb (prc_multiple s) fraction
           then (SDS_transects.UseMax, inter_max)
           else (SDS_transects.UseNan, inter_nan)) /\
        series_at h' cross_distance key =
          Some (map (SDS_transects.intersect clusters s policy t)
                    (output_shorelines output)) /\
        series_at h' cross_distance key =
          Some (SDS_transects.transect_series clusters (with_multiple_inter s mode) t
                  (output_shorelines output)).
Proof.
  intros Hauto Hwf Hsl Htr.
  destruct (compute_intersection_QC_run clusters output transects s h Hwf Hsl Htr)
    as (cd & ext & Hrun & Hser & _).
  exists cd, (h ++ ext). split; [exact Hrun|].
  intros key t Ht. rewrite (Hser key t Ht).
  rewrite (transect_series_auto clusters s t (output_shorelines output) Hauto).
  rewrite fraction_multiple_dates.
  set (fraction := F64.div _ _).
  destruct (F64.ltb (prc_multiple s) fraction) eqn:Hlt.
  - exists fraction, SDS_transects.UseMax, inter_max.
    split; [reflexivity|]. rewrite Hlt. split; [reflexivity|].
    split; [reflexivity|].
    rewrite transect_series_fixed by discriminate. reflexivity.
  - exists fraction, SDS_transects.UseNan, inter_nan.
    split; [reflexivity|]. rewrite Hlt. split; [reflexivity|].
    split; [reflexivity|].
    rewrite transect_series_fixed by discriminate. reflexivity.
Qed.

Lemma auto_policy_is_decided_per_transect_witness :
  SDS_transects.dates_with_multiple SDS_transects.gap_clusters
    settings_transects NA1 (output_shorelines lagoon_output) = [lagoon] /\
  exists cross_distance h',
    SDS_transects.compute_intersection_QC SDS_transects.gap_clusters
      lagoon_output lagoon_transects settings_transects []
      = Some (Some cross_distance, h') /\
    forall key t,
      dict_get key lagoon_transects = Some t ->
      exists fraction policy mode,
        fraction =
          F64.div
            (F64.of_nat (List.length
               (SDS_transects.dates_with_multiple SDS_transects.gap_clusters
                  settings_transects t (output_shorelines lagoon_output))))
            (F64.of_nat (List.length (output_shorelines lagoon_output))) /\
        (policy, mode) =
          (if F64.ltb (prc_multiple settings_transects) fraction
           then (SDS_transects.UseMax, inter_max)
           else (SDS_transects.UseNan, inter_nan)) /\
        series_at h' cross_distance key =
          Some (map (SDS_transects.intersect SDS_transects.gap_clusters
                       settings_transects policy t)
                    (output_shorelines lagoon_output)) /\
        series_at h' cross_distance key =
          Some (SDS_transects.transect_series SDS_transects.gap_clusters
                  (with_multiple_inter settings_transects mode) t
                  (output_shorelines lagoon_output)).
Proof.
  split; [vm_compute; reflexivity|].
  apply (auto_policy_is_decided_per_transect SDS_transects.gap_clusters
           lagoon_output lagoon_transects settings_transects []).
  - reflexivity.
  - reflexivity.
  - discriminate.
  - discriminate.
Defined.

(** The run on those four images: the fourth date of NA1 has two clusters,
    one date in four is more than 10 percent, and the engine returns the
    seaward cluster (160) there, as the setting "max" does; the setting "nan"
    rejects that date. *)
Example auto_engine_takes_max_at_lagoon :
  SDS_transects.compute_intersection_QC SDS_transects.gap_clusters
    lagoon_output lagoon_transects settings_transects []
  = Some (Some [("NA1"%string, 0)],
          [ [F64.of_Z 100; F64.of_Z 100; F64.of_Z 100; F64.of_Z 160] ]) /\
  SDS_transects.transect_series SDS_transects.gap_clusters
    (with_multiple_inter settings_transects inter_max) NA1
    (output_shorelines lagoon_output)
  = [F64.of_Z 100; F64.of_Z 100; F64.of_Z 100; F64.of_Z 160] /\
  SDS_transects.transect_series SDS_transects.gap_clusters
    (with_multiple_inter settings_transects inter_nan) NA1
    (output_shorelines lagoon_output)
  = [F64.of_Z 100; F64.of_Z 100; F64.of_Z 100; F64.nan].
Proof. vm_compute. repeat split. Qed.

(** One image in four shows two clusters, more than 10 percent: the
    seaward cluster is taken at that date (160). *)
Example auto_takes_max_when_frequent :
  SDS_transects.transect_series SDS_transects.gap_clusters settings_transects NA1
    [calm; calm; calm; lagoon]
  = [F64.of_Z 100; F64.of_Z 100; F64.of_Z 100; F64.of_Z 160].
Proof. vm_compute. reflexivity. Qed.

(** One image in ten, not more than 10 percent: the same date is rejected. *)
Example auto_rejects_when_rare :
  SDS_transects.transect_series SDS_transects.gap_clusters settings_transects NA1
    [calm; calm; calm; calm; calm; calm; calm; calm; calm; lagoon]
  = [F64.of_Z 100; F64.of_Z 100; F64.of_Z 100; F64.of_Z 100; F64.of_Z 100;
     F64.of_Z 100; F64.of_Z 100; F64.of_Z 100; F64.of_Z 100; F64.nan].
Proof. vm_compute. reflexivity. Qed.

(** * Further properties of the cells *)

(** ** The tidal-correction cell on series of any length *)

(** X1. With every reference allocated, the cell returns exactly when each
    raw series can be broadcast against the tide levels: same number of
    entries, or one of the two has a single entry.  Otherwise the addition
    raises and the cell yields no result. *)
Theorem tidal_correction_returns_iff_broadcastable (elevation slope : float)
    (cross_distance : pydict) (tides_sat : loc) (h : heap) (tides : ndarray) :
  nth_error h tides_sat = Some tides ->
  (forall k l, dict_get k cross_distance = Some l -> l < List.length h) ->
  (exists result,
     cross_distance_tidally_corrected elevation slope cross_distance tides_sat h
       = Some result) <->
  (forall key raw, series_at h cross_distance key = Some raw ->
     List.length raw = List.length tides \/
     List.length raw = 1 \/ List.length tides = 1).
Proof.
  intros Ht Hwf. split.
  - intros ([corrected h'] & Hrun) key raw Hraw.
    unfold series_at in Hraw.
    destruct (dict_get key cross_distance) as [l|] eqn:Hl; [|discriminate].
    destruct (tidal_loop_visits elevation slope cross_distance tides_sat _ _ _ _ _
                Hrun key (dict_get_keys _ _ _ Hl))
      as (ext & tides' & l' & raw' & z & Ht' & Hl' & Hraw' & Hz).
    rewrite (nth_error_grow h ext _ _ Ht) in Ht'. injection Ht' as <-.
    rewrite Hl in Hl'. injection Hl' as <-.
    rewrite <- app_assoc, (nth_error_grow h _ _ _ Hraw) in Hraw'.
    injection Hraw' as <-.
    rewrite <- (correction_of_length elevation slope tides).
    apply broadcast_add_some_iff. now exists z.
  - intros Hcompat.
    destruct (tidal_correction_broadcast elevation slope cross_distance tides_sat
                h tides Ht) as (corrected & ext & Hrun & _).
    + intros k l Hl.
      destruct (nth_error h l) as [raw|] eqn:Hraw.
      * assert (Hs : series_at h cross_distance k = Some raw)
          by (unfold series_at; now rewrite Hl).
        specialize (Hcompat k raw Hs).
        rewrite <- (correction_of_length elevation slope tides) in Hcompat.
        apply broadcast_add_some_iff in Hcompat as (z & Hz).
        now exists raw, z.
      * apply nth_error_None in Hraw. specialize (Hwf k l Hl). lia.
    + now exists (corrected, h ++ ext).
Qed.

Lemma tidal_correction_returns_iff_broadcastable_witness :
  (exists result,
     cross_distance_tidally_corrected reference_elevation beach_slope
       example_cross_distance example_tides_sat misaligned_heap = Some result) <->
  (forall key raw, series_at misaligned_heap example_cross_distance key = Some raw ->
     List.length raw = List.length [f64 1 2; f64 1 4] \/
     List.length raw = 1 \/ List.length [f64 1 2; f64 1 4] = 1).
Proof.
  apply (tidal_correction_returns_iff_broadcastable reference_elevation beach_slope
           example_cross_distance example_tides_sat misaligned_heap
           [f64 1 2; f64 1 4]).
  - reflexivity.
  - intros k l H. unfold example_cross_distance in H. simpl in H.
    destruct (String.eqb k "NA1"); [|destruct (String.eqb k "NA2")];
      try discriminate; injection H as <-; simpl; lia.
Defined.

(** Three raw entries against two tide levels: [ValueError]. *)
Example misaligned_series_raise :
  cross_distance_tidally_corrected reference_elevation beach_slope
    example_cross_distance example_tides_sat misaligned_heap = None.
Proof. vm_compute. reflexivity. Qed.

(** X2. When the tide series has a single level (one image), the cell returns
    whatever the lengths of the raw series, and every entry of every series is
    shifted by the one term [(tide - reference_elevation) / beach_slope]. *)
Theorem single_tide_level_shifts_every_entry (elevation slope : float)
    (cross_distance : pydict) (tides_sat : loc) (h : heap) (t : float) :
  nth_error h tides_sat = Some [t] ->
  (forall k l, dict_get k cross_distance = Some l -> l < List.length h) ->
  exists corrected h',
    cross_distance_tidally_corrected elevation slope cross_distance tides_sat h
      = Some (corrected, h') /\
    forall key raw,
      series_at h cross_distance key = Some raw ->
      series_at h' corrected key =
      Some (map (fun r => F64.add r (F64.div (F64.sub t elevation) slope)) raw).
Proof.
  intros Ht Hwf.
  destruct (tidal_correction_broadcast elevation slope cross_distance tides_sat
              h [t] Ht) as (corrected & ext & Hrun & Hser).
  - intros k l Hl.
    destruct (nth_error h l) as [raw|] eqn:Hraw.
    + exists raw. eexists. split; [reflexivity|].
      apply (broadcast_add_single_r raw).
    + apply nth_error_None in Hraw. specialize (Hwf k l Hl). lia.
  - exists corrected, (h ++ ext). split; [exact Hrun|].
    intros key raw Hraw. rewrite (Hser key raw Hraw).
    apply (broadcast_add_single_r raw).
Qed.

Lemma single_tide_level_shifts_every_entry_witness :
  exists corrected h',
    cross_distance_tidally_corrected reference_elevation beach_slope
      example_cross_distance example_tides_sat single_tide_heap
      = Some (corrected, h') /\
    forall key raw,
      series_at single_tide_heap example_cross_distance key = Some raw ->
      series_at h' corrected key =
      Some (map (fun r => F64.add r
                   (F64.div (F64.sub (f64 1 2) reference_elevation) beach_slope))
                raw).
Proof.
  apply (single_tide_level_shifts_every_entry reference_elevation beach_slope
           example_cross_distance example_tides_sat single_tide_heap (f64 1 2)).
  - reflexivity.
  - intros k l H. unfold example_cross_distance in H. simpl in H.
    destruct (String.eqb k "NA1"); [|destruct (String.eqb k "NA2")];
      try discriminate; injection H as <-; simpl; lia.
Defined.



(** The single value 100 of NA1 becomes the two values 130 and 115. *)
Example one_entry_series_example :
  exists corrected h',
    cross_distance_tidally_corrected reference_elevation beach_slope
      example_cross_distance example_tides_sat one_entry_heap
      = Some (corrected, h') /\
    series_at h' corrected "NA1" = Some [F64.of_Z 130; F64.of_Z 115].
Proof. vm_compute. do 2 eexists. split; reflexivity. Qed.

(** X4. The result has the names of [cross_distance], in the same order. *)
Theorem corrected_names_in_same_order (elevation slope : float)
    (cross_distance : pydict) (tides_sat : loc) (h h' : heap) (corrected : pydict) :
  NoDup (dict_keys cross_distance) ->
  cross_distance_tidally_corrected elevation slope cross_distance tides_sat h
    = Some (corrected, h') ->
  dict_keys corrected = dict_keys cross_distance.
Proof.
  intros Hnd Hrun.
  apply (tidal_loop_keys elevation slope cross_distance tides_sat
           (dict_keys cross_distance) Hnd [] h corrected h') in Hrun.
  - exact Hrun.
  - intros k _ [].
Qed.

Lemma corrected_names_in_same_order_witness :
  dict_keys example_corrected = dict_keys example_cross_distance.
Proof.
  apply (corrected_names_in_same_order reference_elevation beach_slope
           example_cross_distance example_tides_sat example_heap
           example_heap_after example_corrected).
  - apply NoDup_cons; [simpl; intros [H|[]]; discriminate|].
    apply NoDup_cons; [intros []|apply NoDup_nil].
  - vm_compute. reflexivity.
Defined.

(** X5. Whenever the cell returns, with or without alignment, it has only
    added arrays to the store; every corrected series lives in an array that
    did not exist before; and no two names of the result share an array, even
    when two names of [cross_distance] refer to the same raw array. *)
Theorem corrected_series_are_separate_arrays (elevation slope : float)
    (cross_distance : pydict) (tides_sat : loc) (h h' : heap) (corrected : pydict) :
  cross_distance_tidally_corrected elevation slope cross_distance tides_sat h
    = Some (corrected, h') ->
  (forall l a, nth_error h l = Some a -> nth_error h' l = Some a) /\
  (forall k l, dict_get k corrected = Some l ->
     List.length h <= l /\ l < List.length h') /\
  (forall k1 k2 l1 l2,
     k1 <> k2 ->
     dict_get k1 corrected = Some l1 ->
     dict_get k2 corrected = Some l2 ->
     l1 <> l2).
Proof.
  intros Hrun.
  destruct (tidal_loop_grows elevation slope cross_distance tides_sat _ _ _ _ _ Hrun)
    as (ext & ->).
  destruct (tidal_loop_separate elevation slope cross_distance tides_sat
              (dict_keys cross_distance) [] h corrected (h ++ ext))
    as ((Hlt & Hinj) & Hfresh);
    [split; [intros k l H; discriminate|intros k1 k2 l _ H; discriminate]
    |exact Hrun|].
  split; [|split].
  - intros l a Hl. now apply nth_error_grow.
  - intros k l Hl. split; [|exact (Hlt k l Hl)].
    destruct (Hfresh k l Hl) as [Hold|Hnew]; [discriminate|exact Hnew].
  - intros k1 k2 l1 l2 Hne H1 H2 ->. exact (Hinj k1 k2 l2 Hne H1 H2).
Qed.

Lemma corrected_series_are_separate_arrays_witness :
  (forall l a, nth_error example_heap l = Some a ->
     nth_error example_heap_after l = Some a) /\
  (forall k l, dict_get k example_corrected = Some l ->
     List.length example_heap <= l /\ l < List.length example_heap_after) /\
  (forall k1 k2 l1 l2,
     k1 <> k2 ->
     dict_get k1 example_corrected = Some l1 ->
     dict_get k2 example_corrected = Some l2 ->
     l1 <> l2).
Proof.
  apply (corrected_series_are_separate_arrays reference_elevation beach_slope
           example_cross_distance example_tides_sat example_heap
           example_heap_after example_corrected).
  vm_compute. reflexivity.
Defined.

(** ** The export cells on series of any length *)

(** X6. When no transect is named ["dates"], the cell that builds the raw
    table returns exactly when every transect name has a series in
    [cross_distance] and that series has as many entries as there are dates.
    A missing name raises [KeyError], a series of another length makes
    [pd.DataFrame] raise [ValueError]: no table with short or padded columns
    is ever produced. *)
Theorem raw_table_returns_iff_aligned (output : output_t)
    (transects : dict Transect) (cross_distance : pydict) (h : heap) :
  ~ In "dates"%string (dict_keys transects) ->
  (exists df h',
     transect_time_series output transects cross_distance h = Some (df, h')) <->
  (forall key, In key (dict_keys transects) ->
     exists a, series_at h cross_distance key = Some a /\
               List.length a = List.length (output_dates output)).
Proof.
  intros Hd.
  change (transect_time_series output transects cross_distance)
    with (export (output_dates output) (dict_keys transects) cross_distance).
  split.
  - intros (df & h' & Hrun) key Hkey.
    destruct (export_inv _ _ _ _ _ _ Hrun) as (_ & _ & Hcol & Hdates & _).
    destruct (Hcol key Hkey) as (a & Ha & _ & Hn).
    destruct (Hdates Hd) as (_ & Hm).
    exists a. split; [exact Ha|congruence].
  - intros Hal.
    destruct (export_run (output_dates output) (dict_keys transects)
                cross_distance h Hal) as (df & Hrun & _).
    now exists df, h.
Qed.

Lemma raw_table_returns_iff_aligned_witness :
  (exists df h',
     transect_time_series example_output example_transects
       example_cross_distance misaligned_heap = Some (df, h')) <->
  (forall key, In key (dict_keys example_transects) ->
     exists a, series_at misaligned_heap example_cross_distance key = Some a /\
               List.length a = List.length (output_dates example_output)).
Proof.
  apply (raw_table_returns_iff_aligned example_output example_transects
           example_cross_distance misaligned_heap).
  simpl. intros [H|[H|[]]]; discriminate.
Defined.

(** A series of three entries for two dates: [ValueError]; a transect without
    a series: [KeyError]. *)
Example raw_table_raises :
  transect_time_series example_output example_transects
    example_cross_distance misaligned_heap = None /\
  transect_time_series example_output example_transects
    [("NA1"%string, 0)] example_heap = None.
Proof. vm_compute. split; reflexivity. Qed.

(** X7. A transect named ["dates"] takes the place of the date column: the
    column ["dates"] of the raw table then holds the cross-distance series of
    that transect, and no column of the table holds dates. *)
Theorem transect_named_dates_replaces_the_dates (output : output_t)
    (transects : dict Transect) (cross_distance : pydict) (h h' : heap)
    (df : pd.frame) :
  In "dates"%string (dict_keys transects) ->
  transect_time_series output transects cross_distance h = Some (df, h') ->
  (exists a, series_at h cross_distance "dates" = Some a /\
             dict_get "dates" (pd.columns df) = Some (pd.FloatColumn a)) /\
  (forall key row, pd.date_at df key row = None).
Proof.
  intros Hd Hrun.
  change (transect_time_series output transects cross_distance)
    with (export (output_dates output) (dict_keys transects) cross_distance)
    in Hrun.
  destruct (export_inv _ _ _ _ _ _ Hrun) as (_ & _ & Hcol & _ & _ & _ & Hfloat).
  split.
  - destruct (Hcol _ Hd) as (a & Ha & Hc & _). now exists a.
  - intros key row. unfold pd.date_at.
    destruct (dict_get key (pd.columns df)) as [c|] eqn:Hc; [|reflexivity].
    destruct (Hfloat Hd key c (dict_get_In _ _ _ Hc)) as (a & ->). reflexivity.
Qed.

Lemma transect_named_dates_replaces_the_dates_witness :
  (exists a, series_at example_heap dates_cross_distance "dates" = Some a /\
             dict_get "dates" (pd.columns dates_raw_table) = Some (pd.FloatColumn a)) /\
  (forall key row, pd.date_at dates_raw_table key row = None).
Proof.
  apply (transect_named_dates_replaces_the_dates example_output dates_transects
           dates_cross_distance example_heap example_heap dates_raw_table).
  - simpl. now left.
  - vm_compute. reflexivity.
Defined.







(** X11. The two tables, cell by cell: on series aligned with the dates, the
    entry of the corrected table for a transect and a row is the entry of the
    raw table for that transect and row plus
    [(tide - reference_elevation) / beach_slope] for the tide level of that
    row. *)
Theorem corrected_table_is_raw_table_plus_correction (output : output_t)
    (transects : dict Transect) (elevation slope : float)
    (cross_distance : pydict) (tides_sat : loc) (h : heap) (tides : ndarray) :
  nth_error h tides_sat = Some tides ->
  List.length tides = List.length (output_dates output) ->
  aligned h cross_distance (List.length (output_dates output)) ->
  (forall key, In key (dict_keys transects) -> In key (dict_keys cross_distance)) ->
  exists df_raw corrected h' df_corrected,
    transect_time_series output transects cross_distance h = Some (df_raw, h) /\
    cross_distance_tidally_corrected elevation slope cross_distance tides_sat h
      = Some (corrected, h') /\
    transect_time_series_tidally_corrected (output_dates output) corrected h'
      = Some (df_corrected, h') /\
    forall key row r t,
      In key (dict_keys transects) ->
      pd.float_at df_raw key row = Some r ->
      nth_error tides row = Some t ->
      pd.float_at df_corrected key row =
      Some (F64.add r (F64.div (F64.sub t elevation) slope)).
Proof.
  intros Ht Hlen Hal Hkeys.
  destruct (table_run h (output_dates output) (dict_keys transects)
              cross_distance Hal Hkeys)
    as (out1 & cols1 & Hfill1 & Hdf1 & Hcol1 & _).
  rewrite <- Hlen in Hal.
  destruct (tidal_correction_series elevation slope _ _ _ _ Ht Hal)
    as (corrected & ext & Hrun & Hser & _ & Hal').
  rewrite Hlen in Hal'.
  destruct (table_run (h ++ ext) (output_dates output) (dict_keys corrected)
              corrected Hal' (fun k H => H))
    as (out2 & cols2 & Hfill2 & Hdf2 & Hcol2 & _).
  exists {| pd.index := seq 0 (List.length (output_dates output));
            pd.columns := cols1 |}.
  exists corrected, (h ++ ext).
  exists {| pd.index := seq 0 (List.length (output_dates output));
            pd.columns := cols2 |}.
  split. { unfold transect_time_series, bind. now rewrite Hfill1. }
  split. { exact Hrun. }
  split. { unfold transect_time_series_tidally_corrected, bind. now rewrite Hfill2. }
  intros key row r t Hkey Hr Hti.
  destruct (Hcol1 key Hkey) as (raw & Hraw & Hc1 & _).
  unfold pd.float_at in Hr |- *. simpl in Hr |- *. rewrite Hc1 in Hr.
  pose proof (Hser key raw Hraw) as Hout.
  assert (Hin2 : In key (dict_keys corrected)).
  { unfold series_at in Hout.
    destruct (dict_get key corrected) as [l'|] eqn:E; [|discriminate].
    eapply dict_get_keys; eauto. }
  destruct (Hcol2 key Hin2) as (out & Hout' & Hc2 & _).
  rewrite Hc2. rewrite Hout in Hout'. injection Hout' as <-.
  now apply corrected_series_nth.
Qed.

Lemma corrected_table_is_raw_table_plus_correction_witness :
  exists df_raw corrected h' df_corrected,
    transect_time_series example_output example_transects
      example_cross_distance example_heap = Some (df_raw, example_heap) /\
    cross_distance_tidally_corrected reference_elevation beach_slope
      example_cross_distance example_tides_sat example_heap
      = Some (corrected, h') /\
    transect_time_series_tidally_corrected (output_dates example_output)
      corrected h' = Some (df_corrected, h') /\
    forall key row r t,
      In key (dict_keys example_transects) ->
      pd.float_at df_raw key row = Some r ->
      nth_error [f64 1 2; f64 1 4] row = Some t ->
      pd.float_at df_corrected key row =
      Some (F64.add r (F64.div (F64.sub t reference_elevation) beach_slope)).
Proof.
  apply (corrected_table_is_raw_table_plus_correction example_output
           example_transects reference_elevation beach_slope
           example_cross_distance example_tides_sat example_heap
           [f64 1 2; f64 1 4]).
  - reflexivity.
  - reflexivity.
  - exact example_aligned.
  - intros key H. exact H.
Defined.

(** ** The figure of the time series *)

(** X12. The figure cell returns exactly when [cross_distance] has a name
    (matplotlib refuses a grid without a row) and every series that holds a
    value other than NaN has one entry per date ([ax.plot] refuses another
    length); the length of a series that is all NaN, or empty, is never
    looked at.  When the cell returns, the figure has a subplot exactly for
    the names whose series holds at least one value that is not NaN: a series
    that is all NaN is skipped, although the tables keep it.  A subplot sits
    at the row given by the position of its name among the keys of
    [cross_distance], so the row of a skipped name stays empty, and it shows
    the dates against the series minus its [nanmedian]. *)
Theorem figure_skips_all_nan_series (output : output_t) (cross_distance : pydict)
    (h : heap) :
  (forall k l, dict_get k cross_distance = Some l -> l < List.length h) ->
  ((exists fig h', plot_time_series output cross_distance h = Some (fig, h')) <->
   cross_distance <> [] /\
   forall key a,
     series_at h cross_distance key = Some a ->
     nanfunctions.all_isnan a = false ->
     List.length a = List.length (output_dates output)) /\
  forall fig h',
    plot_time_series output cross_distance h = Some (fig, h') ->
    (forall key,
       (exists p, In p fig /\ panel_text p = key) <->
       (exists a, series_at h cross_distance key = Some a /\
                  nanfunctions.all_isnan a = false)) /\
    (forall p, In p fig ->
       nth_error (dict_keys cross_distance) (panel_row p) = Some (panel_text p) /\
       panel_dates p = output_dates output /\
       exists a, series_at h cross_distance (panel_text p) = Some a /\
                 List.length a = List.length (output_dates output) /\
                 panel_values p =
                 map (fun v => F64.sub v (nanfunctions.nanmedian a)) a).
Proof.
  intros Hwf.
  set (gs := {| gridspec.nrows := List.length cross_distance;
                gridspec.ncols := 1 |}).
  assert (Hinv : forall fig h',
            plot_time_series output cross_distance h = Some (fig, h') ->
            cross_distance <> [] /\
            forall key a,
              series_at h cross_distance key = Some a ->
              nanfunctions.all_isnan a = false ->
              List.length a = List.length (output_dates output)).
  { intros fig h' Hrun.
    assert (Hne : cross_distance <> [])
      by (intros E; rewrite E, plot_time_series_empty in Hrun; discriminate).
    split; [exact Hne|].
    rewrite (plot_time_series_grid output cross_distance h Hne) in Hrun.
    apply plottable_enumerate.
    apply (plot_loop_inv gs (output_dates output) cross_distance h Hwf
             Nat.lt_0_1 _ (enumerate_in_grid cross_distance) [] [] fig h').
    rewrite app_nil_r. exact Hrun. }
  assert (Hret : cross_distance <> [] ->
            (forall key a,
               series_at h cross_distance key = Some a ->
               nanfunctions.all_isnan a = false ->
               List.length a = List.length (output_dates output)) ->
            exists fig ext,
              plot_time_series output cross_distance h = Some (fig, h ++ ext) /\
              (forall p, In p fig ->
                 In (panel_row p, panel_text p)
                    (enumerate (dict_keys cross_distance)) /\
                 panel_dates p = output_dates output /\
                 exists a, series_at h cross_distance (panel_text p) = Some a /\
                           nanfunctions.all_isnan a = false /\
                           panel_values p =
                           map (fun v => F64.sub v (nanfunctions.nanmedian a)) a) /\
              (forall i k a,
                 In (i, k) (enumerate (dict_keys cross_distance)) ->
                 series_at h cross_distance k = Some a ->
                 nanfunctions.all_isnan a = false ->
                 exists p, In p fig /\ panel_row p = i /\ panel_text p = k)).
  { intros Hne Hlen.
    destruct (plot_loop gs (output_dates output) cross_distance h Hwf
                Nat.lt_0_1 _ (enumerate_in_grid cross_distance)
                (proj2 (plottable_enumerate _ _ _) Hlen) [] [])
      as (fig & ext & Hrun & Hnew & Hall).
    rewrite app_nil_r in Hrun. simpl in Hrun.
    exists fig, ext.
    rewrite (plot_time_series_grid output cross_distance h Hne).
    split; [exact Hrun|]. split; assumption. }
  split.
  - split.
    + intros (fig & h' & Hrun). exact (Hinv fig h' Hrun).
    + intros (Hne & Hlen). destruct (Hret Hne Hlen) as (fig & ext & Hrun & _).
      now exists fig, (h ++ ext).
  - intros fig h' Hrun. destruct (Hinv fig h' Hrun) as (Hne & Hlen).
    destruct (Hret Hne Hlen) as (fig0 & ext & Hrun0 & Hnew & Hall).
    rewrite Hrun0 in Hrun. injection Hrun as <- _. split.
    + intros key. split.
      * intros (p & Hp & <-). destruct (Hnew p Hp) as (_ & _ & a & Ha & Hn & _).
        now exists a.
      * intros (a & Ha & Hn).
        assert (Hkey : In key (dict_keys cross_distance)).
        { unfold series_at in Ha. destruct (dict_get key cross_distance) eqn:E;
            [|discriminate]. eapply dict_get_keys; eauto. }
        apply In_nth_error in Hkey as (i & Hi).
        destruct (Hall i key a (proj2 (In_enumerate _ i key) Hi) Ha Hn)
          as (p & Hp & _ & Htext).
        now exists p.
    + intros p Hp. destruct (Hnew p Hp) as (Hin & Hd & a & Ha & Hn & Hy).
      split; [now apply In_enumerate|]. split; [exact Hd|].
      exists a. split; [exact Ha|]. split; [exact (Hlen _ a Ha Hn)|exact Hy].
Qed.

Lemma figure_skips_all_nan_series_witness :
  ((exists fig h',
      plot_time_series example_output example_cross_distance all_nan_heap
        = Some (fig, h')) <->
   example_cross_distance <> [] /\
   forall key a,
     series_at all_nan_heap example_cross_distance key = Some a ->
     nanfunctions.all_isnan a = false ->
     List.length a = List.length (output_dates example_output)) /\
  forall fig h',
    plot_time_series example_output example_cross_distance all_nan_heap
      = Some (fig, h') ->
    (forall key,
       (exists p, In p fig /\ panel_text p = key) <->
       (exists a, series_at all_nan_heap example_cross_distance key = Some a /\
                  nanfunctions.all_isnan a = false)) /\
    (forall p, In p fig ->
       nth_error (dict_keys example_cross_distance) (panel_row p)
         = Some (panel_text p) /\
       panel_dates p = output_dates example_output /\
       exists a, series_at all_nan_heap example_cross_distance (panel_text p)
                   = Some a /\
                 List.length a = List.length (output_dates example_output) /\
                 panel_values p =
                 map (fun v => F64.sub v (nanfunctions.nanmedian a)) a).
Proof.
  apply (figure_skips_all_nan_series example_output example_cross_distance
           all_nan_heap).
  intros k l H. unfold example_cross_distance in H. simpl in H.
  destruct (String.eqb k "NA1"); [|destruct (String.eqb k "NA2")];
    try discriminate; injection H as <-; simpl; lia.
Defined.

(** NA1 is all NaN: the only subplot is that of NA2, on the second row, with
    the values 95 and 97 shown as -1 and 1 around their median. *)
Example figure_example :
  exists h',
    plot_time_series example_output example_cross_distance all_nan_heap
    = Some ([ {| panel_row := 1;
                 panel_dates := output_dates example_output;
                 panel_values := [F64.of_Z (-1); F64.of_Z 1];
                 panel_text := "NA2" |} ], h').
Proof. vm_compute. eexists. reflexivity. Qed.

(** The cell raises when there is no transect at all, and when a series that
    is plotted has three entries against two dates. *)
Example figure_raises :
  plot_time_series example_output [] example_heap = None /\
  plot_time_series example_output example_cross_distance misaligned_heap = None.
Proof. split; vm_compute; reflexivity. Qed.
